(** * fetch-rs: the Fetch Event layer (lib/fetch-event.ts, lib/server.ts)

  A shallow embedding of the Headers, Request, Response, FetchEvent and
  Server classes, and the properties their specification states.

  Conventions of the embedding:
  - a JavaScript string is a [string] holding its UTF-8 bytes, so that
    [Buffer.from(s)] and, on bytes that are valid UTF-8,
    [buf.toString("utf-8")] are [list_byte_of_string] and
    [string_of_list_byte];
  - [String.prototype.toLowerCase] is given on strings of ASCII
    characters, which HTTP header names are; a property that compares
    names states that they are ASCII;
  - a [Buffer], [ArrayBuffer] or [Uint8Array] is a reference into a heap of
    byte arrays, because the classes store and hand out such objects
    without always copying them;
  - a JavaScript [Map<string,string>] is an association list in insertion
    order;
  - a call that may throw is a computation in the monad [M]: it returns a
    [Completion] and the new state; an [async] method returns the completion
    its promise settles with, and the synchronous part of its body (the
    flags it sets) is applied to the state at the call;
  - the chain that [respondWith] registers on its promise runs in a later
    turn of the job queue, [FetchEvent.run_reaction]; the invocations of
    the reply sink are recorded with the event;
  - event objects live in a store and handlers receive a reference; a
    handler is a function object with a body that acts on the world, the
    [_handlers] array of the server included, and the dispatch loop reads
    that array as the iterator of [for ... of] does, index by index;
  - a [number] that is an HTTP status is an integer;
  - [JSON.stringify] and [JSON.parse] belong to the platform and are taken
    through the class [JSONBuiltins]. *)

From Stdlib Require Import ZArith Lia.
From Stdlib.Strings Require Import Byte Ascii.
From stdpp Require Import base decidable option list strings pretty.

Local Open Scope string_scope.
Local Open Scope list_scope.

(** ** Exceptions, completions and the state monad of the embedding *)

Inductive ErrorName := ErrorE | TypeErrorE | RangeErrorE | SyntaxErrorE.

Record Error := mkError { ename : ErrorName; emessage : string }.

Inductive Completion (A : Type) :=
| Normal (a : A)
| Throw (e : Error).
Arguments Normal {A} a.
Arguments Throw {A} e.

Definition is_normal {A} (c : Completion A) : bool :=
  match c with Normal _ => true | Throw _ => false end.

Definition M (S A : Type) : Type := S -> Completion A * S.

Definition ret {S A} (a : A) : M S A := fun s => (Normal a, s).

Definition throw {S A} (e : Error) : M S A := fun s => (Throw e, s).

Definition bind {S A B} (m : M S A) (k : A -> M S B) : M S B :=
  fun s =>
    match m s with
    | (Normal a, s') => k a s'
    | (Throw e, s') => (Throw e, s')
    end.

(** [try { body } catch (e) { handler e }] *)
Definition try_catch {S A} (body : M S A) (handler : Error -> M S A) : M S A :=
  fun s =>
    match body s with
    | (Normal a, s') => (Normal a, s')
    | (Throw e, s') => handler e s'
    end.

Definition gets {S A} (f : S -> A) : M S A := fun s => (Normal (f s), s).

Definition modify {S} (f : S -> S) : M S unit := fun s => (Normal tt, f s).

Declare Scope m_scope.
Delimit Scope m_scope with M.
Notation "x <- m ;; k" := (bind m (fun x => k))
  (at level 100, m at next level, right associativity) : m_scope.
Notation "m ;;; k" := (bind m (fun _ => k))
  (at level 100, right associativity) : m_scope.
Local Open Scope m_scope.

(** ** Strings *)

(** [String.prototype.toLowerCase], as it acts on a string of ASCII
  characters: the letters A to Z are folded, every other byte is left as
  it is. Header names are HTTP tokens, hence ASCII; on a string with other
  characters the platform's function also folds letters outside ASCII,
  which this definition does not, so a property that compares names
  carries the hypothesis [is_ascii] on them. *)
Definition lower_ascii (c : ascii) : ascii :=
  let n := nat_of_ascii c in
  if ((65 <=? n)%nat && (n <=? 90)%nat)%bool then ascii_of_nat (n + 32)%nat else c.

Fixpoint toLowerCase (s : string) : string :=
  match s with
  | EmptyString => EmptyString
  | String c s' => String (lower_ascii c) (toLowerCase s')
  end.

(** Truthiness of a JavaScript string: only the empty string is falsy. *)
Definition truthy_string (s : string) : bool :=
  match s with EmptyString => false | String _ _ => true end.

(** ** Map<string, string> *)

Module JsMap.

Definition t := list (string * string).

Definition empty : t := [].

Fixpoint get (k : string) (m : t) : option string :=
  match m with
  | [] => None
  | (k', v) :: m' => if String.eqb k k' then Some v else get k m'
  end.

Definition has (k : string) (m : t) : bool :=
  match get k m with Some _ => true | None => false end.

(** [set] keeps the position of a key that is present and puts a new key
  last. *)
Fixpoint set (k v : string) (m : t) : t :=
  match m with
  | [] => [(k, v)]
  | (k', v') :: m' =>
      if String.eqb k k' then (k, v) :: m' else (k', v') :: set k v m'
  end.

Fixpoint delete (k : string) (m : t) : t :=
  match m with
  | [] => []
  | (k', v') :: m' =>
      if String.eqb k k' then m' else (k', v') :: delete k m'
  end.

Definition entries (m : t) : list (string * string) := m.

End JsMap.

(** ** Byte arrays on the heap *)

Abbreviation loc := nat.

Abbreviation Heap := (list (list byte)).

Module Buffer.

Definition alloc (bs : list byte) : M Heap loc :=
  fun h => (Normal (length h), h ++ [bs]).

Definition read (b : loc) (h : Heap) : list byte := default [] (h !! b).

(** [Buffer.from(string)]: a new buffer with the bytes of the string. *)
Definition from_string (s : string) : M Heap loc :=
  alloc (String.list_byte_of_string s).

(** [Buffer.from(buffer)] and [Buffer.from(uint8Array)]: a new buffer with a
  copy of the bytes. *)
Definition from_copy (b : loc) : M Heap loc :=
  fun h => alloc (read b h) h.

(** [Buffer.from(arrayBuffer)]: a view of the same memory. *)
Definition from_arrayBuffer (ab : loc) : M Heap loc := ret ab.

(** [buf.toString("utf-8")], as it acts on bytes that are valid UTF-8: a
  string of the model is the UTF-8 encoding of the JavaScript string, so
  the decoded text is the bytes themselves. On other bytes the platform
  substitutes U+FFFD for each invalid sequence; a property that states the
  text of arbitrary bytes carries the hypothesis [valid_utf8]. *)
Definition toString (b : loc) (h : Heap) : string :=
  String.string_of_list_byte (read b h).

(** [buf[i] = x], which any holder of the buffer may do. *)
Definition write (b : loc) (i : nat) (x : byte) (h : Heap) : Heap :=
  <[b := <[i := x]> (read b h)]> h.

End Buffer.

(** The values a body is built from; [ArrayBuffer] and [Uint8Array] are
  references like [Buffer]. *)
Inductive BodyInit :=
| BodyString (s : string)
| BodyBuffer (b : loc)
| BodyArrayBuffer (ab : loc)
| BodyUint8Array (a : loc).

(** ** Headers *)

Record HeaderPair := mkHeaderPair { hp_name : string; hp_value : string }.

Definition JsHeader := HeaderPair.

(** One element of an array given to the constructor: a [[name, value]]
  tuple or a [{name, value}] record. *)
Inductive HeaderItem :=
| ItemTuple (name value : string)
| ItemPair (p : HeaderPair).

Module Headers.

Record t := mk { _headers : JsMap.t }.

Inductive Init :=
| InitHeaders (h : t)
| InitArray (items : list HeaderItem)
| InitRecord (entries : list (string * string)).

Definition set_entry (m : JsMap.t) (kv : string * string) : JsMap.t :=
  JsMap.set (toLowerCase (fst kv)) (snd kv) m.

Definition item_entry (i : HeaderItem) : string * string :=
  match i with
  | ItemTuple n v => (n, v)
  | ItemPair p => (hp_name p, hp_value p)
  end.

Definition new (init : option Init) : t :=
  match init with
  | None => mk JsMap.empty
  | Some (InitHeaders h) =>
      mk (fold_left set_entry (JsMap.entries (_headers h)) JsMap.empty)
  | Some (InitArray items) =>
      mk (fold_left set_entry (map item_entry items) JsMap.empty)
  | Some (InitRecord es) =>
      mk (fold_left set_entry es JsMap.empty)
  end.

Definition append (name value : string) (h : t) : t :=
  let key := toLowerCase name in
  match JsMap.get key (_headers h) with
  | Some existing =>
      if truthy_string existing
      then mk (JsMap.set key (existing +:+ ", " +:+ value) (_headers h))
      else mk (JsMap.set key value (_headers h))
  | None => mk (JsMap.set key value (_headers h))
  end.

Definition delete (name : string) (h : t) : t :=
  mk (JsMap.delete (toLowerCase name) (_headers h)).

Definition get (name : string) (h : t) : option string :=
  JsMap.get (toLowerCase name) (_headers h).

Definition has (name : string) (h : t) : bool :=
  JsMap.has (toLowerCase name) (_headers h).

Definition set (name value : string) (h : t) : t :=
  mk (JsMap.set (toLowerCase name) value (_headers h)).

Definition entries (h : t) : list (string * string) :=
  JsMap.entries (_headers h).

Definition toArray (h : t) : list (string * string) :=
  JsMap.entries (_headers h).

Definition toJsHeaders (h : t) : list JsHeader :=
  map (fun nv => mkHeaderPair (fst nv) (snd nv)) (JsMap.entries (_headers h)).

Definition keys (h : t) : list string := map fst (_headers h).

Definition values (h : t) : list string := map snd (_headers h).

(** The invariant of the class: the keys of the map are lower-case and
  pairwise distinct. *)
Definition wf (h : t) : Prop :=
  Forall (fun kv => toLowerCase (fst kv) = fst kv) (_headers h)
  /\ NoDup (map fst (_headers h)).

End Headers.

(** ** JSON values and the platform's JSON object *)

#[local] Set Warnings "-register-all".

Inductive JsValue :=
| JUndefined
| JNull
| JBool (b : bool)
| JNumber (n : Z)
| JString (s : string)
| JArray (items : list JsValue)
| JObject (fields : list (string * JsValue)).

(** [JSON.stringify] returns a string or [undefined], or throws;
  [JSON.parse] returns a value or throws a [SyntaxError]. *)
Class JSONBuiltins := {
  JSON_stringify : JsValue -> Completion (option string);
  JSON_parse : string -> Completion JsValue
}.

(** What a body accessor hands out. *)
Inductive BodyValue :=
| VText (s : string)
| VArrayBuffer (ab : loc)
| VBlob (bytes : list byte)
| VJson (v : JsValue).

Inductive Accessor := AText | AArrayBuffer | ABlob | AJson.

(** The wire-level response handed to the transport; its body is the
  buffer itself, not a copy. *)
Record JsResponse := mkJsResponse {
  js_status : Z;
  js_headers : list JsHeader;
  js_body : option loc
}.

(** One invocation of a reply sink: its argument, and the exception it
  threw if it did not return. *)
Record SinkCall := mkSinkCall { sc_response : JsResponse; sc_thrown : option Error }.

(** A reply sink belongs to the transport: given the invocations made so
  far and its argument, it returns ([None]) or throws. *)
Definition Sink := list SinkCall -> JsResponse -> option Error.

Record RequestContext := mkRequestContext {
  ctx_method : string;
  ctx_url : string;
  ctx_headers : list HeaderPair;
  ctx_body : option loc;
  ctx_clientAddress : string;
  ctx_respond : Sink
}.

Definition lift_heap {T A} (m : M Heap A) : M (T * Heap) A :=
  fun s =>
    match m (snd s) with
    | (c, h') => (c, (fst s, h'))
    end.

(** ** Request *)

Module Request.

Record t := mk {
  method : string;
  url : string;
  headers : Headers.t;
  _body : option loc;
  _bodyUsed : bool
}.

Record Init := mkInit {
  i_method : option string;
  i_headers : option Headers.Init;
  i_body : option BodyInit
}.

Inductive Input :=
| InputString (u : string)
| InputURL (href : string)
| InputRequest (r : t).

Definition set_bodyUsed (b : bool) (r : t) : t :=
  mk (method r) (url r) (headers r) (_body r) b.

Definition set_body (b : option loc) (r : t) : t :=
  mk (method r) (url r) (headers r) b (_bodyUsed r).

(** Truthiness of [init.body]: every object is truthy, a string unless it
  is empty. *)
Definition truthy_body (b : BodyInit) : bool :=
  match b with
  | BodyString s => truthy_string s
  | _ => true
  end.

(** [Buffer.from(init.body)] *)
Definition Buffer_from (b : BodyInit) : M Heap loc :=
  match b with
  | BodyString s => Buffer.from_string s
  | BodyBuffer b => Buffer.from_copy b
  | BodyArrayBuffer ab => Buffer.from_arrayBuffer ab
  | BodyUint8Array a => Buffer.from_copy a
  end.

Definition new (input : Input) (init : option Init) : M Heap t :=
  match input with
  | InputRequest input =>
      ret (mk (default (method input) (init ≫= i_method))
              (url input)
              (Headers.new
                 (Some (default (Headers.InitHeaders (headers input))
                                (init ≫= i_headers))))
              (_body input)
              false)
  | InputString u | InputURL u =>
      body <- match init ≫= i_body with
              | Some b =>
                  if truthy_body b
                  then (l <- Buffer_from b ;; ret (Some l))
                  else ret None
              | None => ret None
              end ;;
      ret (mk (default "GET" (init ≫= i_method))
              u
              (Headers.new (init ≫= i_headers))
              body
              false)
  end.

Definition bodyUsed (r : t) : bool := _bodyUsed r.

Definition _checkBodyUsed : M (t * Heap) unit :=
  fun s =>
    if _bodyUsed (fst s)
    then (Throw (mkError TypeErrorE "Body has already been consumed"), s)
    else (Normal tt, s).

Definition mark_bodyUsed : M (t * Heap) unit :=
  modify (fun s => (set_bodyUsed true (fst s), snd s)).

Definition arrayBuffer : M (t * Heap) loc :=
  _checkBodyUsed ;;;
  mark_bodyUsed ;;;
  b <- gets (fun s => _body (fst s)) ;;
  match b with
  | None => lift_heap (Buffer.alloc [])
  | Some b => lift_heap (Buffer.from_copy b)
  end.

Definition text : M (t * Heap) string :=
  _checkBodyUsed ;;;
  mark_bodyUsed ;;;
  gets (fun s =>
          match _body (fst s) with
          | None => ""
          | Some b => Buffer.toString b (snd s)
          end).

Definition json `{JSONBuiltins} : M (t * Heap) JsValue :=
  text0 <- text ;;
  fun s => (JSON_parse text0, s).

Definition blob : M (t * Heap) (list byte) :=
  _checkBodyUsed ;;;
  mark_bodyUsed ;;;
  gets (fun s =>
          match _body (fst s) with
          | None => []
          | Some b => Buffer.read b (snd s)
          end).

Definition formData : M (t * Heap) unit :=
  throw (mkError ErrorE "FormData parsing not yet implemented").

Definition clone : M (t * Heap) t :=
  fun s =>
    let this := fst s in
    if _bodyUsed this
    then (Throw (mkError TypeErrorE
                   "Cannot clone a Request whose body has been used"), s)
    else lift_heap
           (new (InputString (url this))
                (Some (mkInit (Some (method this))
                              (Some (Headers.InitHeaders (headers this)))
                              (BodyBuffer <$> _body this))))
           s.

Definition _fromContext (ctx : RequestContext) : M Heap t :=
  request <- new (InputString (ctx_url ctx))
                 (Some (mkInit (Some (ctx_method ctx))
                               (Some (Headers.InitArray
                                        (map ItemPair (ctx_headers ctx))))
                               None)) ;;
  ret (set_body (ctx_body ctx) request).

(** A call of one of the four consuming accessors. *)
Definition consume `{JSONBuiltins} (a : Accessor) : M (t * Heap) BodyValue :=
  match a with
  | AText => v <- text ;; ret (VText v)
  | AArrayBuffer => v <- arrayBuffer ;; ret (VArrayBuffer v)
  | ABlob => v <- blob ;; ret (VBlob v)
  | AJson => v <- json ;; ret (VJson v)
  end.

End Request.

(** ** Response *)

Module Response.

Record t := mk {
  status : Z;
  statusText : string;
  headers : Headers.t;
  _body : option loc;
  _bodyUsed : bool
}.

Record Init := mkInit {
  i_status : option Z;
  i_statusText : option string;
  i_headers : option Headers.Init
}.

Definition set_bodyUsed (b : bool) (r : t) : t :=
  mk (status r) (statusText r) (headers r) (_body r) b.

Definition new (body : option BodyInit) (init : option Init) : M Heap t :=
  b <- match body with
       | None => ret None
       | Some (BodyString s) => l <- Buffer.from_string s ;; ret (Some l)
       | Some (BodyBuffer b) => ret (Some b)
       | Some (BodyArrayBuffer ab) =>
           l <- Buffer.from_arrayBuffer ab ;; ret (Some l)
       | Some (BodyUint8Array a) => l <- Buffer.from_copy a ;; ret (Some l)
       end ;;
  ret (mk (default 200%Z (init ≫= i_status))
          (default "OK" (init ≫= i_statusText))
          (Headers.new (init ≫= i_headers))
          b
          false).

Definition ok (r : t) : bool :=
  ((200 <=? status r)%Z && (status r <? 300)%Z)%bool.

Definition bodyUsed (r : t) : bool := _bodyUsed r.

Definition _checkBodyUsed : M (t * Heap) unit :=
  fun s =>
    if _bodyUsed (fst s)
    then (Throw (mkError TypeErrorE "Body has already been consumed"), s)
    else (Normal tt, s).

Definition mark_bodyUsed : M (t * Heap) unit :=
  modify (fun s => (set_bodyUsed true (fst s), snd s)).

Definition arrayBuffer : M (t * Heap) loc :=
  _checkBodyUsed ;;;
  mark_bodyUsed ;;;
  b <- gets (fun s => _body (fst s)) ;;
  match b with
  | None => lift_heap (Buffer.alloc [])
  | Some b => lift_heap (Buffer.from_copy b)
  end.

Definition text : M (t * Heap) string :=
  _checkBodyUsed ;;;
  mark_bodyUsed ;;;
  gets (fun s =>
          match _body (fst s) with
          | None => ""
          | Some b => Buffer.toString b (snd s)
          end).

Definition json `{JSONBuiltins} : M (t * Heap) JsValue :=
  text0 <- text ;;
  fun s => (JSON_parse text0, s).

Definition blob : M (t * Heap) (list byte) :=
  _checkBodyUsed ;;;
  mark_bodyUsed ;;;
  gets (fun s =>
          match _body (fst s) with
          | None => []
          | Some b => Buffer.read b (snd s)
          end).

Definition formData : M (t * Heap) unit :=
  throw (mkError ErrorE "FormData parsing not yet implemented").

Definition clone : M (t * Heap) t :=
  fun s =>
    let this := fst s in
    if _bodyUsed this
    then (Throw (mkError TypeErrorE
                   "Cannot clone a Response whose body has been used"), s)
    else lift_heap
           (new (BodyBuffer <$> _body this)
                (Some (mkInit (Some (status this))
                              (Some (statusText this))
                              (Some (Headers.InitHeaders (headers this))))))
           s.

(** The static [Response.json(data, init)]. *)
Definition static_json `{JSONBuiltins} (data : JsValue) (init : option Init)
  : M Heap t :=
  fun h =>
    match JSON_stringify data with
    | Throw e => (Throw e, h)
    | Normal body =>
        let headers :=
          Headers.set "content-type" "application/json"
            (Headers.new (init ≫= i_headers)) in
        new (BodyString <$> body)
            (Some (mkInit (init ≫= i_status)
                          (init ≫= i_statusText)
                          (Some (Headers.InitHeaders headers))))
            h
    end.

Definition redirect_statuses : list Z := [301; 302; 303; 307; 308]%Z.

(** The static [Response.redirect(url, status = 302)]; [None] is the
  omitted argument. The message of the error shows the status in decimal
  digits, as the platform prints an integer below 1e21. *)
Definition redirect (url : string) (status : option Z) : M Heap t :=
  let status := default 302%Z status in
  if negb (existsb (Z.eqb status) redirect_statuses)
  then throw (mkError RangeErrorE
                ("Invalid redirect status: " +:+ pretty status))
  else new None
           (Some (mkInit (Some status) None
                         (Some (Headers.InitRecord [("location", url)])))).

Definition error : M Heap t :=
  new None (Some (mkInit (Some 0%Z) None None)).

Definition _toJsResponse : M (t * Heap) JsResponse :=
  gets (fun s =>
          let this := fst s in
          mkJsResponse (status this)
                       (Headers.toJsHeaders (headers this))
                       (_body this)).

Definition consume `{JSONBuiltins} (a : Accessor) : M (t * Heap) BodyValue :=
  match a with
  | AText => v <- text ;; ret (VText v)
  | AArrayBuffer => v <- arrayBuffer ;; ret (VArrayBuffer v)
  | ABlob => v <- blob ;; ret (VBlob v)
  | AJson => v <- json ;; ret (VJson v)
  end.

End Response.

(** ** FetchEvent *)

(** The settlement a promise reaches; [Unsettled] is a promise that never
  settles. *)
Inductive Promise (A : Type) :=
| Fulfilled (a : A)
| Rejected (e : Error)
| Unsettled.
Arguments Fulfilled {A} a.
Arguments Rejected {A} e.
Arguments Unsettled {A}.

(** The argument of [respondWith]; a Response is given in the state it has
  when the reaction of the promise runs. *)
Inductive RespondArg :=
| ArgResponse (r : Response.t)
| ArgPromise (p : Promise Response.t).

(** [Promise.resolve(response)] *)
Definition Promise_resolve (response : RespondArg) : Promise Response.t :=
  match response with
  | ArgResponse r => Fulfilled r
  | ArgPromise p => p
  end.

Definition ConsoleLine : Type := string * Error.

Module FetchEvent.

(** The fields of the class, and two fields of bookkeeping: [sink_calls],
  the invocations of [_respondCallback] made so far, and [reactions], the
  promises on which [respondWith] has registered its [then]/[catch] chain
  and whose reaction has not run yet. *)
Record t := mk {
  request : Request.t;
  clientAddress : string;
  _responded : bool;
  _respondCallback : Sink;
  _waitUntilPromises : list nat;
  sink_calls : list SinkCall;
  reactions : list (Promise Response.t)
}.

(** What a method of one event and the reactions it registers act on. *)
Record State := mkState {
  event : t;
  heap : Heap;
  console : list ConsoleLine
}.

Definition new (request : Request.t) (clientAddress : string)
  (respondCallback : Sink) : t :=
  mk request clientAddress false respondCallback [] [] [].

Definition set_event (ev : t) (s : State) : State :=
  mkState ev (heap s) (console s).

(** [this._respondCallback(js)] *)
Definition call_respondCallback (js : JsResponse) : M State unit :=
  fun s =>
    let this := event s in
    let thrown := _respondCallback this (sink_calls this) js in
    let this' :=
      mk (request this) (clientAddress this) (_responded this)
         (_respondCallback this) (_waitUntilPromises this)
         (sink_calls this ++ [mkSinkCall js thrown])
         (reactions this) in
    match thrown with
    | None => (Normal tt, set_event this' s)
    | Some e => (Throw e, set_event this' s)
    end.

(** [console.error(label, error)] *)
Definition console_error (label : string) (error : Error) : M State unit :=
  modify (fun s => mkState (event s) (heap s) (console s ++ [(label, error)])).

(** A method called on a Response that the event does not own. *)
Definition on_response {A} (res : Response.t) (m : M (Response.t * Heap) A)
  : M State A :=
  fun s =>
    match m (res, heap s) with
    | (c, (_, h')) => (c, mkState (event s) h' (console s))
    end.

Definition new_Response (body : option BodyInit) (init : option Response.Init)
  : M State Response.t :=
  fun s =>
    match Response.new body init (heap s) with
    | (c, h') => (c, mkState (event s) h' (console s))
    end.

(** The synchronous part of [respondWith]: the check, the flag, and the
  registration of the chain on [Promise.resolve(response)]. *)
Definition respondWith (response : RespondArg) : M State unit :=
  fun s =>
    let this := event s in
    if _responded this
    then (Throw (mkError ErrorE "respondWith() has already been called"), s)
    else
      (Normal tt,
       set_event
         (mk (request this) (clientAddress this) true
             (_respondCallback this) (_waitUntilPromises this)
             (sink_calls this)
             (reactions this ++ [Promise_resolve response]))
         s).

(** The two callbacks of the chain share the local variable
  [responseSent]; they run on the state paired with it. *)
Definition lift_sent {A} (m : M State A) : M (State * bool) A :=
  fun s =>
    match m (fst s) with
    | (c, s') => (c, (s', snd s))
    end.

Definition then_callback (res : Response.t) : M (State * bool) unit :=
  js <- lift_sent (on_response res Response._toJsResponse) ;;
  lift_sent (call_respondCallback js) ;;;
  modify (fun s => (fst s, true)).

Definition catch_callback (error : Error) : M (State * bool) unit :=
  responseSent <- gets snd ;;
  if (responseSent : bool)
  then lift_sent (console_error "Error after response sent:" error)
  else
    try_catch
      (errorResponse <-
         lift_sent
           (new_Response
              (Some (BodyString ("Internal Server Error: " +:+ emessage error)))
              (Some (Response.mkInit (Some 500%Z) None None))) ;;
       js <- lift_sent (on_response errorResponse Response._toJsResponse) ;;
       lift_sent (call_respondCallback js))
      (fun sendError =>
         lift_sent (console_error "Failed to send error response:" sendError)).

(** [p.then(then_callback).catch(catch_callback)], run when [p] has
  settled; the completion is the settlement of the promise that [catch]
  returns. *)
Definition chain (p : Promise Response.t) : M (State * bool) unit :=
  match p with
  | Fulfilled res => try_catch (then_callback res) catch_callback
  | Rejected e => catch_callback e
  | Unsettled => ret tt
  end.

(** One turn of the job queue for this event: the oldest registered chain
  runs if its promise has settled. *)
Definition run_reaction : M State unit :=
  fun s =>
    let this := event s in
    match reactions this with
    | [] => (Normal tt, s)
    | Unsettled :: _ => (Normal tt, s)
    | p :: rest =>
        let this' :=
          mk (request this) (clientAddress this) (_responded this)
             (_respondCallback this) (_waitUntilPromises this)
             (sink_calls this) rest in
        match chain p (set_event this' s, false) with
        | (c, (s', _)) => (c, s')
        end
    end.

Definition waitUntil (promise : nat) : M State unit :=
  modify (fun s =>
            let this := event s in
            set_event
              (mk (request this) (clientAddress this) (_responded this)
                  (_respondCallback this)
                  (_waitUntilPromises this ++ [promise])
                  (sink_calls this) (reactions this))
              s).

Definition _getWaitUntilPromises (this : t) : list nat :=
  _waitUntilPromises this.

Definition _fromContext (ctx : RequestContext) : M Heap t :=
  request <- Request._fromContext ctx ;;
  ret (new request (ctx_clientAddress ctx) (ctx_respond ctx)).

(** What happens to one event: calls of [respondWith] and turns of the job
  queue, in any order. *)
Inductive Action :=
| CallRespondWith (response : RespondArg)
| RunReaction.

Definition step (a : Action) : M State unit :=
  match a with
  | CallRespondWith response => respondWith response
  | RunReaction => run_reaction
  end.

(** The state after a sequence of actions, each completing or throwing
  on its own. *)
Definition run (acts : list Action) (s : State) : State :=
  fold_left (fun s a => snd (step a s)) acts s.

Definition initial (request : Request.t) (clientAddress : string)
  (respondCallback : Sink) (h : Heap) : State :=
  mkState (new request clientAddress respondCallback) h [].

End FetchEvent.

(** ** Server *)

(** Event objects live in a store and are passed by reference. A handler is
  a function object, named by a number (which [indexOf] compares); the
  world holds the [_handlers] array of the server, which the closure of a
  handler may reach. *)
Record World := mkWorld {
  w_events : list FetchEvent.t;
  w_heap : Heap;
  w_console : list ConsoleLine;
  _handlers : list nat
}.

(** The bodies of the handlers: the body of handler [f], called with the
  reference of an event. *)
Abbreviation HandlerCode := (nat -> nat -> M World unit).

(** One call [handler(event)] made by the dispatch loop. *)
Record Invocation := mkInvocation {
  inv_handler : nat;
  inv_event : nat;
  inv_thrown : option Error
}.

(** A method of the event at reference [e], called from a handler. *)
Definition on_event {A} (e : nat) (m : M FetchEvent.State A) : M World A :=
  fun w =>
    match w_events w !! e with
    | None => (Throw (mkError TypeErrorE "not an event"), w)
    | Some ev =>
        match m (FetchEvent.mkState ev (w_heap w) (w_console w)) with
        | (c, s') =>
            (c, mkWorld (<[e := FetchEvent.event s']> (w_events w))
                        (FetchEvent.heap s') (FetchEvent.console s')
                        (_handlers w))
        end
    end.

Module Server.

Definition set_handlers (handlers : list nat) (w : World) : World :=
  mkWorld (w_events w) (w_heap w) (w_console w) handlers.

Definition addEventListener (event : string) (handler : nat) : M World unit :=
  if negb (String.eqb event "fetch")
  then throw (mkError ErrorE ("Unknown event type: " +:+ event))
  else modify (fun w => set_handlers (_handlers w ++ [handler]) w).

(** [this._handlers.indexOf(handler)] *)
Fixpoint indexOf (handler : nat) (l : list nat) : option nat :=
  match l with
  | [] => None
  | h :: l' =>
      if Nat.eqb h handler then Some 0
      else S <$> indexOf handler l'
  end.

Definition removeEventListener (event : string) (handler : nat)
  : M World unit :=
  if negb (String.eqb event "fetch")
  then throw (mkError ErrorE ("Unknown event type: " +:+ event))
  else
    modify (fun w =>
              match indexOf handler (_handlers w) with
              | Some index => set_handlers (delete index (_handlers w)) w
              | None => w
              end).

Definition console_error (label : string) (error : Error) : M World unit :=
  modify (fun w => mkWorld (w_events w) (w_heap w)
                           (w_console w ++ [(label, error)])
                           (_handlers w)).

(** [FetchEvent._fromContext(ctx)]: a new event object in the store. *)
Definition new_event (ctx : RequestContext) : M World nat :=
  fun w =>
    match FetchEvent._fromContext ctx (w_heap w) with
    | (Normal ev, h') =>
        (Normal (length (w_events w)),
         mkWorld (w_events w ++ [ev]) h' (w_console w) (_handlers w))
    | (Throw e, h') =>
        (Throw e, mkWorld (w_events w) h' (w_console w) (_handlers w))
    end.

(** [try { handler(event) } catch (error) { console.error(...) }]; the
  result is what the handler threw, if it did. *)
Definition call_handler (code : HandlerCode) (handler event : nat)
  : M World (option Error) :=
  try_catch
    (code handler event ;;; ret None)
    (fun error =>
       console_error "Error in fetch handler:" error ;;; ret (Some error)).

(** [for (const handler of this._handlers) ...]: the iterator reads the
  array as it is at each turn, at the next index, and the loop ends when
  the index is past the end. The result lists the calls made; it is [None]
  when the loop has not ended within [fuel] turns. *)
Fixpoint call_handlers (code : HandlerCode) (fuel : nat) (index : nat)
  (event : nat) (w : World) : option (Completion (list Invocation) * World) :=
  match fuel with
  | O => None
  | S fuel =>
      match _handlers w !! index with
      | None => Some (Normal [], w)
      | Some handler =>
          match call_handler code handler event w with
          | (Normal thrown, w') =>
              match call_handlers code fuel (S index) event w' with
              | Some (Normal calls, w'') =>
                  Some (Normal (mkInvocation handler event thrown :: calls),
                        w'')
              | other => other
              end
          | (Throw e, w') => Some (Throw e, w')
          end
      end
  end.

(** The callback that [listen] gives to the transport. *)
Definition dispatch (code : HandlerCode) (fuel : nat) (ctx : RequestContext)
  (w : World) : option (Completion (list Invocation) * World) :=
  match new_event ctx w with
  | (Normal event, w') => call_handlers code fuel 0 event w'
  | (Throw e, w') => Some (Throw e, w')
  end.

End Server.

(** ** A JSON object for the examples

  An implementation of the two builtins on the values of [JsValue]: numbers
  are integers (a fraction or an exponent in a text is outside this
  fragment and is rejected), escapes [\uXXXX] are read below 128 only, and
  an object keeps its members in the order of the text. *)

Module JSONRef.

Definition dquote : ascii := ascii_of_nat 34.
Definition backslash : ascii := ascii_of_nat 92.

Definition hex_digit (n : nat) : ascii :=
  if (n <? 10)%nat then ascii_of_nat (48 + n) else ascii_of_nat (87 + n).

(** The text of one character inside a string literal. *)
Definition escape_char (c : ascii) : string :=
  let n := nat_of_ascii c in
  if (n =? 34)%nat then String backslash (String dquote "")
  else if (n =? 92)%nat then String backslash (String backslash "")
  else if (n =? 8)%nat then String backslash "b"
  else if (n =? 9)%nat then String backslash "t"
  else if (n =? 10)%nat then String backslash "n"
  else if (n =? 12)%nat then String backslash "f"
  else if (n =? 13)%nat then String backslash "r"
  else if (n <? 32)%nat
       then String backslash
              ("u00" +:+ String (hex_digit (n / 16))
                               (String (hex_digit (n mod 16)) ""))
  else String c "".

Fixpoint escape (s : string) : string :=
  match s with
  | EmptyString => ""
  | String c s' => escape_char c +:+ escape s'
  end.

Definition quote (s : string) : string :=
  String dquote (escape s +:+ String dquote "").

(** [None] is the result [undefined]. *)
Fixpoint stringify_value (v : JsValue) : option string :=
  match v with
  | JUndefined => None
  | JNull => Some "null"
  | JBool b => Some (if b then "true" else "false")
  | JNumber n => Some (pretty n)
  | JString s => Some (quote s)
  | JArray items =>
      Some ("[" +:+ String.concat ","
                      (map (fun x => default "null" (stringify_value x)) items)
                +:+ "]")
  | JObject fields =>
      Some ("{" +:+ String.concat ","
                      (omap (fun kx =>
                               (fun t => quote (fst kx) +:+ ":" +:+ t)
                                 <$> stringify_value (snd kx))
                            fields)
                +:+ "}")
  end.

Definition is_ws (c : ascii) : bool :=
  let n := nat_of_ascii c in
  ((n =? 32)%nat || (n =? 9)%nat || (n =? 10)%nat || (n =? 13)%nat)%bool.

Fixpoint skip_ws (s : string) : string :=
  match s with
  | String c s' => if is_ws c then skip_ws s' else s
  | EmptyString => s
  end.

Definition is_digit (c : ascii) : bool :=
  let n := nat_of_ascii c in ((48 <=? n)%nat && (n <=? 57)%nat)%bool.

(** The digits at the head of a text, as a number, with their count and
  the rest of the text. *)
Fixpoint read_digits (acc : Z) (count : nat) (s : string) : Z * nat * string :=
  match s with
  | String c s' =>
      if is_digit c
      then read_digits (10 * acc + Z.of_nat (nat_of_ascii c - 48))%Z
                       (S count) s'
      else (acc, count, s)
  | EmptyString => (acc, count, s)
  end.

Definition starts_fraction (s : string) : bool :=
  match s with
  | String c _ =>
      let n := nat_of_ascii c in
      ((n =? 46)%nat || (n =? 69)%nat || (n =? 101)%nat)%bool
  | EmptyString => false
  end.

(** An integer literal without its sign. *)
Definition read_natural (s : string) : option (Z * string) :=
  match s with
  | String c s' =>
      if (nat_of_ascii c =? 48)%nat
      then if starts_fraction s' then None else Some (0%Z, s')
      else
        match read_digits 0 0 s with
        | (_, O, _) => None
        | (n, _, rest) => if starts_fraction rest then None else Some (n, rest)
        end
  | EmptyString => None
  end.

Definition hex_value (c : ascii) : option nat :=
  let n := nat_of_ascii c in
  if ((48 <=? n)%nat && (n <=? 57)%nat)%bool then Some (n - 48)
  else if ((97 <=? n)%nat && (n <=? 102)%nat)%bool then Some (n - 87)
  else if ((65 <=? n)%nat && (n <=? 70)%nat)%bool then Some (n - 55)
  else None.

(** The characters of a string literal after its opening quote. *)
Fixpoint read_string (s : string) : option (string * string) :=
  match s with
  | EmptyString => None
  | String c s' =>
      let n := nat_of_ascii c in
      if (n =? 34)%nat then Some ("", s')
      else if (n <? 32)%nat then None
      else if (n =? 92)%nat then
        match s' with
        | String e s'' =>
            let m := nat_of_ascii e in
            let simple (x : nat) :=
              match read_string s'' with
              | Some (t, rest) => Some (String (ascii_of_nat x) t, rest)
              | None => None
              end in
            if (m =? 34)%nat then simple 34
            else if (m =? 92)%nat then simple 92
            else if (m =? 47)%nat then simple 47
            else if (m =? 98)%nat then simple 8
            else if (m =? 116)%nat then simple 9
            else if (m =? 110)%nat then simple 10
            else if (m =? 102)%nat then simple 12
            else if (m =? 114)%nat then simple 13
            else if (m =? 117)%nat then
              match s'' with
              | String h1 (String h2 (String h3 (String h4 s4))) =>
                  match hex_value h1, hex_value h2, hex_value h3, hex_value h4,
                        read_string s4 with
                  | Some 0, Some 0, Some a, Some b, Some (t, rest) =>
                      if (a <? 8)%nat
                      then Some (String (ascii_of_nat (16 * a + b)) t, rest)
                      else None
                  | _, _, _, _, _ => None
                  end
              | _ => None
              end
            else None
        | EmptyString => None
        end
      else
        match read_string s' with
        | Some (t, rest) => Some (String c t, rest)
        | None => None
        end
  end.

Fixpoint set_field (k : string) (v : JsValue) (fs : list (string * JsValue))
  : list (string * JsValue) :=
  match fs with
  | [] => [(k, v)]
  | (k', v') :: fs' =>
      if String.eqb k k' then (k, v) :: fs' else (k', v') :: set_field k v fs'
  end.

Definition strip (p : string) (s : string) : option string :=
  if String.prefix p s
  then Some (String.substring (String.length p)
                              (String.length s - String.length p) s)
  else None.

Fixpoint read_value (fuel : nat) (s : string) : option (JsValue * string) :=
  match fuel with
  | O => None
  | S fuel =>
      match skip_ws s with
      | EmptyString => None
      | String c s' as s0 =>
          let n := nat_of_ascii c in
          if (n =? 110)%nat then (fun r => (JNull, r)) <$> strip "null" s0
          else if (n =? 116)%nat then (fun r => (JBool true, r)) <$> strip "true" s0
          else if (n =? 102)%nat then (fun r => (JBool false, r)) <$> strip "false" s0
          else if (n =? 34)%nat
               then (fun tr => (JString (fst tr), snd tr)) <$> read_string s'
          else if (n =? 45)%nat
               then (fun nr => (JNumber (- fst nr)%Z, snd nr)) <$> read_natural s'
          else if is_digit c
               then (fun nr => (JNumber (fst nr), snd nr)) <$> read_natural s0
          else if (n =? 91)%nat then
            match skip_ws s' with
            | String c1 r1 as s1 =>
                if (nat_of_ascii c1 =? 93)%nat then Some (JArray [], r1)
                else (fun lr => (JArray (fst lr), snd lr)) <$> read_items fuel s1
            | EmptyString => None
            end
          else if (n =? 123)%nat then
            match skip_ws s' with
            | String c1 r1 as s1 =>
                if (nat_of_ascii c1 =? 125)%nat then Some (JObject [], r1)
                else (fun lr => (JObject (fst lr), snd lr))
                       <$> read_members fuel [] s1
            | EmptyString => None
            end
          else None
      end
  end
with read_items (fuel : nat) (s : string) : option (list JsValue * string) :=
  match fuel with
  | O => None
  | S fuel =>
      match read_value fuel s with
      | Some (v, r) =>
          match skip_ws r with
          | String c r' =>
              if (nat_of_ascii c =? 93)%nat then Some ([v], r')
              else if (nat_of_ascii c =? 44)%nat
              then (fun lr => (v :: fst lr, snd lr)) <$> read_items fuel r'
              else None
          | EmptyString => None
          end
      | None => None
      end
  end
with read_members (fuel : nat) (acc : list (string * JsValue)) (s : string)
  : option (list (string * JsValue) * string) :=
  match fuel with
  | O => None
  | S fuel =>
      match skip_ws s with
      | String q s1 =>
          if (nat_of_ascii q =? 34)%nat then
            match read_string s1 with
            | Some (k, r1) =>
                match skip_ws r1 with
                | String colon r2 =>
                    if (nat_of_ascii colon =? 58)%nat then
                      match read_value fuel r2 with
                      | Some (v, r3) =>
                          let acc' := set_field k v acc in
                          match skip_ws r3 with
                          | String c r4 =>
                              if (nat_of_ascii c =? 125)%nat then Some (acc', r4)
                              else if (nat_of_ascii c =? 44)%nat
                              then read_members fuel acc' r4
                              else None
                          | EmptyString => None
                          end
                      | None => None
                      end
                    else None
                | EmptyString => None
                end
            | None => None
            end
          else None
      | EmptyString => None
      end
  end.

Definition stringify (v : JsValue) : Completion (option string) :=
  Normal (stringify_value v).

Definition parse (text : string) : Completion JsValue :=
  match skip_ws text with
  | EmptyString => Throw (mkError SyntaxErrorE "Unexpected end of JSON input")
  | _ =>
      match read_value (2 * String.length text + 2) text with
      | Some (v, rest) =>
          match skip_ws rest with
          | EmptyString => Normal v
          | _ => Throw (mkError SyntaxErrorE "Unexpected token in JSON")
          end
      | None => Throw (mkError SyntaxErrorE "Unexpected token in JSON")
      end
  end.

Definition builtins : JSONBuiltins :=
  {| JSON_stringify := stringify; JSON_parse := parse |}.

End JSONRef.

(** ** Vocabulary of the properties *)

Definition consumed_error : Error :=
  mkError TypeErrorE "Body has already been consumed".

Definition request_clone_error : Error :=
  mkError TypeErrorE "Cannot clone a Request whose body has been used".

Definition response_clone_error : Error :=
  mkError TypeErrorE "Cannot clone a Response whose body has been used".

Definition already_responded : Error :=
  mkError ErrorE "respondWith() has already been called".

(** The text that [text()] decodes from the body of a message. *)
Definition body_text (body : option loc) (h : Heap) : string :=
  match body with
  | None => ""
  | Some b => Buffer.toString b h
  end.

(** A sequence of calls of consuming accessors on one Request, with the
  completion of each. *)
Fixpoint request_calls `{JSONBuiltins} (accs : list Accessor)
  (s : Request.t * Heap) : list (Completion BodyValue) * (Request.t * Heap) :=
  match accs with
  | [] => ([], s)
  | a :: accs' =>
      match Request.consume a s with
      | (c, s') =>
          match request_calls accs' s' with
          | (cs, s'') => (c :: cs, s'')
          end
      end
  end.

Fixpoint response_calls `{JSONBuiltins} (accs : list Accessor)
  (s : Response.t * Heap) : list (Completion BodyValue) * (Response.t * Heap) :=
  match accs with
  | [] => ([], s)
  | a :: accs' =>
      match Response.consume a s with
      | (c, s') =>
          match response_calls accs' s' with
          | (cs, s'') => (c :: cs, s'')
          end
      end
  end.

(** An invocation of the sink that returned. *)
Definition returned (c : SinkCall) : bool :=
  match sc_thrown c with None => true | Some _ => false end.

Definition lower_case (s : string) : Prop := toLowerCase s = s.

Definition keys_ok (m : JsMap.t) : Prop :=
  Forall (fun kv => lower_case (fst kv)) m /\ NoDup (map fst m).

(** The completions of a sequence of accessor calls among which at most
  one is normal, every call after a normal one failing on the consumed
  body. *)
Definition at_most_one_success (results : list (Completion BodyValue)) : Prop :=
  length (filter (fun c => is_normal c = true) results) <= 1
  /\ (forall i j v,
        results !! i = Some (Normal v) -> i < j -> j < length results ->
        results !! j = Some (Throw consumed_error)).

(** Writing into the buffer of the original does not change what the
  clone reads. *)
Definition independent_body (original clone : option loc) (h : Heap) : Prop :=
  forall b i x,
    original = Some b ->
    body_text clone (Buffer.write b i x h) = body_text clone h.

(** Messages for the examples, on a heap that holds one buffer: a text
  that is not JSON. *)
Definition ex_heap : Heap := [String.list_byte_of_string "{oops"].

Definition ex_request : Request.t :=
  Request.set_body (Some 0)
    (Request.mk "POST" "https://example.com/api"
       (Headers.new (Some (Headers.InitRecord [("X-Test", "value")])))
       None false).

Definition ex_response : Response.t :=
  Response.mk 201 "Created"
    (Headers.new (Some (Headers.InitRecord [("Content-Type", "text/plain")])))
    (Some 0) false.

(** The lists of invocations that the sink of one event can have seen:
  none, one, or two of which the first threw. *)
Definition calls_shape (calls : list SinkCall) : Prop :=
  calls = []
  \/ (exists c, calls = [c])
  \/ (exists c1 c2, calls = [c1; c2] /\ returned c1 = false).

(** What holds of an event whatever has been done with it since it was
  built with the sink [sink]. *)
Definition event_inv (sink : Sink) (ev : FetchEvent.t) : Prop :=
  FetchEvent._respondCallback ev = sink
  /\ (FetchEvent._responded ev = false ->
      FetchEvent.reactions ev = [] /\ FetchEvent.sink_calls ev = [])
  /\ (FetchEvent.reactions ev = []
      \/ (exists p, FetchEvent.reactions ev = [p])
         /\ FetchEvent.sink_calls ev = [])
  /\ calls_shape (FetchEvent.sink_calls ev).

(** The wire response of the error path, its body in the buffer [b]. *)
Definition error_wire (b : loc) : JsResponse := mkJsResponse 500 [] (Some b).

Definition error_text (error : Error) : string :=
  "Internal Server Error: " +:+ emessage error.

(** The console output of the error path for a sink that threw or not. *)
Definition send_failure_log (thrown : option Error) : list ConsoleLine :=
  match thrown with
  | None => []
  | Some e => [("Failed to send error response:", e)]
  end.

(** A sink of a transport whose connection is gone, and one that accepts
  every reply. *)
Definition broken_sink : Sink :=
  fun _ _ => Some (mkError ErrorE "connection closed").

Definition accepting_sink : Sink := fun _ _ => None.

(** Handlers registered one after the other. *)
Definition register (handlers : list nat) (w : World) : World :=
  fold_left (fun w handler =>
               snd (Server.addEventListener "fetch" handler w))
            handlers w.

(** Handlers for the examples: 1 throws, 2 responds, any other does
  nothing. *)
Definition ex_code : HandlerCode :=
  fun handler event =>
    if Nat.eqb handler 1 then throw (mkError ErrorE "boom")
    else if Nat.eqb handler 2
    then on_event event (FetchEvent.respondWith (ArgResponse ex_response))
    else ret tt.

(** Handler 3 removes itself from the listeners when it is called. *)
Definition one_shot_code : HandlerCode :=
  fun handler event =>
    if Nat.eqb handler 3 then Server.removeEventListener "fetch" 3
    else ret tt.

Definition ex_context : RequestContext :=
  mkRequestContext "GET" "https://example.com/" [] None "127.0.0.1"
                   accepting_sink.

(** A handler that echoes the request: it reads [event.request.text()]
  and calls [event.respondWith(new Response(body))]. *)
Definition echo_code : HandlerCode :=
  fun _ event =>
    on_event event
      (fun s =>
         let this := FetchEvent.event s in
         match Request.text (FetchEvent.request this, FetchEvent.heap s) with
         | (Normal body, (request', h')) =>
             let this' :=
               FetchEvent.mk request' (FetchEvent.clientAddress this)
                 (FetchEvent._responded this)
                 (FetchEvent._respondCallback this)
                 (FetchEvent._waitUntilPromises this)
                 (FetchEvent.sink_calls this) (FetchEvent.reactions this) in
             (res <- FetchEvent.new_Response (Some (BodyString body)) None ;;
              FetchEvent.respondWith (ArgResponse res))
               (FetchEvent.mkState this' h' (FetchEvent.console s))
         | (Throw e, _) => (Throw e, s)
         end).

Definition echo_context : RequestContext :=
  mkRequestContext "POST" "https://example.com/echo"
    [mkHeaderPair "content-type" "text/plain"] (Some 0) "10.0.0.1"
    accepting_sink.

Definition ex_plain_headers : option Headers.Init :=
  Some (Headers.InitRecord [("Content-Type", "text/plain")]).

Definition is_redirect_status (s : Z) : Prop :=
  (s = 301 \/ s = 302 \/ s = 303 \/ s = 307 \/ s = 308)%Z.

(** ** Vocabulary of the further properties *)

(** A mutation of a Headers object. *)
Inductive HeaderOp :=
| OpSet (name value : string)
| OpAppend (name value : string)
| OpDelete (name : string).

Definition apply_op (h : Headers.t) (op : HeaderOp) : Headers.t :=
  match op with
  | OpSet n v => Headers.set n v h
  | OpAppend n v => Headers.append n v h
  | OpDelete n => Headers.delete n h
  end.

Definition apply_ops (ops : list HeaderOp) (h : Headers.t) : Headers.t :=
  fold_left apply_op ops h.

(** The value of the last entry of a list whose name, in lower case, is
  [key]. *)
Definition last_value (key : string) (es : list (string * string))
  : option string :=
  fold_left (fun acc kv =>
               if String.eqb (toLowerCase (fst kv)) key
               then Some (snd kv) else acc)
            es None.

Definition pair_entry (p : HeaderPair) : string * string :=
  (hp_name p, hp_value p).

(** The bytes of the body of a message. *)
Definition body_bytes (body : option loc) (h : Heap) : list byte :=
  match body with
  | None => []
  | Some b => Buffer.read b h
  end.

(** The wire form of a Response. *)
Definition wire (res : Response.t) : JsResponse :=
  mkJsResponse (Response.status res)
    (Headers.toJsHeaders (Response.headers res)) (Response._body res).

Definition settled {A} (p : Promise A) : bool :=
  match p with Unsettled => false | _ => true end.

Definition is_tick (a : FetchEvent.Action) : bool :=
  match a with FetchEvent.RunReaction => true | _ => false end.

Definition is_respond (a : FetchEvent.Action) : bool :=
  match a with FetchEvent.CallRespondWith _ => true | _ => false end.

(** What happens to one event, calls of [waitUntil] included. *)
Inductive EventOp :=
| OpAction (a : FetchEvent.Action)
| OpWaitUntil (promise : nat).

Definition op_step (o : EventOp) : M FetchEvent.State unit :=
  match o with
  | OpAction a => FetchEvent.step a
  | OpWaitUntil promise => FetchEvent.waitUntil promise
  end.

Definition run_ops (ops : list EventOp) (s : FetchEvent.State)
  : FetchEvent.State :=
  fold_left (fun s o => snd (op_step o s)) ops s.

Definition actions_of (ops : list EventOp) : list FetchEvent.Action :=
  omap (fun o => match o with OpAction a => Some a | OpWaitUntil _ => None end)
       ops.

Definition promises_of (ops : list EventOp) : list nat :=
  omap (fun o => match o with OpAction _ => None | OpWaitUntil p => Some p end)
       ops.

(** The event with its list of background promises replaced. *)
Definition with_promises (promises : list nat) (s : FetchEvent.State)
  : FetchEvent.State :=
  let this := FetchEvent.event s in
  FetchEvent.set_event
    (FetchEvent.mk (FetchEvent.request this) (FetchEvent.clientAddress this)
       (FetchEvent._responded this) (FetchEvent._respondCallback this)
       promises (FetchEvent.sink_calls this) (FetchEvent.reactions this))
    s.

(** A string of ASCII characters only. *)
Fixpoint is_ascii (s : string) : bool :=
  match s with
  | EmptyString => true
  | String c s' => ((nat_of_ascii c <? 128)%nat && is_ascii s')%bool
  end.

(** The names of a list of entries are ASCII. *)
Definition ascii_names (es : list (string * string)) : Prop :=
  Forall (fun kv => is_ascii (fst kv) = true) es.

(** An array of tuples [[name, value]], as [toArray()] returns it. *)
Definition tuples (es : list (string * string)) : list HeaderItem :=
  map (fun kv => ItemTuple (fst kv) (snd kv)) es.

Definition byte_in (lo hi : nat) (b : byte) : bool :=
  ((lo <=? Byte.to_nat b)%nat && (Byte.to_nat b <=? hi)%nat)%bool.

(** Well-formed UTF-8: the byte sequences of the Unicode standard (no
  overlong form, no surrogate, nothing above U+10FFFF). *)
Fixpoint valid_utf8 (bs : list byte) : bool :=
  match bs with
  | [] => true
  | b0 :: t0 =>
      if byte_in 0 127 b0 then valid_utf8 t0
      else
        match t0 with
        | [] => false
        | b1 :: t1 =>
            if byte_in 194 223 b0
            then (byte_in 128 191 b1 && valid_utf8 t1)%bool
            else
              match t1 with
              | [] => false
              | b2 :: t2 =>
                  if byte_in 224 239 b0
                  then ((if byte_in 224 224 b0 then byte_in 160 191 b1
                         else if byte_in 237 237 b0 then byte_in 128 159 b1
                         else byte_in 128 191 b1)
                        && byte_in 128 191 b2 && valid_utf8 t2)%bool
                  else
                    match t2 with
                    | [] => false
                    | b3 :: t3 =>
                        (byte_in 240 244 b0
                         && (if byte_in 240 240 b0 then byte_in 144 191 b1
                             else if byte_in 244 244 b0 then byte_in 128 143 b1
                             else byte_in 128 191 b1)
                         && byte_in 128 191 b2 && byte_in 128 191 b3
                         && valid_utf8 t3)%bool
                    end
              end
        end
  end.

(** No call made by the loop on [handlers], one after the other from the
  world [w], changes the array of listeners. *)
Fixpoint quiet (code : HandlerCode) (event : nat) (handlers : list nat)
  (w : World) : Prop :=
  match handlers with
  | [] => True
  | handler :: rest =>
      let w' := snd (Server.call_handler code handler event w) in
      _handlers w' = _handlers w /\ quiet code event rest w'
  end.

(** Handlers that all respond: handler [f] calls
  [event.respondWith(answers f)]. *)
Definition responders (answers : nat -> Response.t) : HandlerCode :=
  fun handler event =>
    on_event event (FetchEvent.respondWith (ArgResponse (answers handler))).

(** * Properties *)

(** ** The monad *)

Lemma bind_normal {S A B} (m : M S A) (k : A -> M S B) s a s' :
  m s = (Normal a, s') -> bind m k s = k a s'.
Proof. unfold bind. intros ->. reflexivity. Qed.

Lemma bind_throw {S A B} (m : M S A) (k : A -> M S B) s e s' :
  m s = (Throw e, s') -> bind m k s = (Throw e, s').
Proof. unfold bind. intros ->. reflexivity. Qed.

(** ** Lower case *)

Lemma lower_ascii_idem c : lower_ascii (lower_ascii c) = lower_ascii c.
Proof. destruct c as [[] [] [] [] [] [] [] []]; reflexivity. Qed.

Lemma toLowerCase_idem s : toLowerCase (toLowerCase s) = toLowerCase s.
Proof.
  induction s as [|c s IH]; simpl; [reflexivity|].
  rewrite lower_ascii_idem, IH. reflexivity.
Qed.

Lemma lower_case_toLowerCase s : lower_case (toLowerCase s).
Proof. apply toLowerCase_idem. Qed.

(** ** Maps *)

Section JsMapFacts.

Implicit Types (k v : string) (m : JsMap.t).

Lemma get_set_eq k v m : JsMap.get k (JsMap.set k v m) = Some v.
Proof.
  induction m as [|[k' v'] m IH]; simpl.
  - rewrite String.eqb_refl. reflexivity.
  - destruct (String.eqb_spec k k') as [->|Hne]; simpl.
    + rewrite String.eqb_refl. reflexivity.
    + destruct (String.eqb_spec k k'); [contradiction|]. exact IH.
Qed.

Lemma get_set_ne k k' v m :
  k <> k' -> JsMap.get k' (JsMap.set k v m) = JsMap.get k' m.
Proof.
  intros Hne. induction m as [|[k1 v1] m IH]; simpl.
  - destruct (String.eqb_spec k' k); [congruence|reflexivity].
  - destruct (String.eqb_spec k k1) as [->|Hk]; simpl.
    + destruct (String.eqb_spec k' k1); [congruence|reflexivity].
    + destruct (String.eqb_spec k' k1); [reflexivity|exact IH].
Qed.

Lemma get_None_iff k m : JsMap.get k m = None <-> k ∉ map fst m.
Proof.
  induction m as [|[k' v'] m IH]; simpl.
  - split; [intros _; apply not_elem_of_nil|reflexivity].
  - rewrite not_elem_of_cons.
    destruct (String.eqb_spec k k') as [->|Hne].
    + split; [discriminate|intros [[] _]; reflexivity].
    + rewrite IH. tauto.
Qed.

Lemma get_Some_elem k v m : JsMap.get k m = Some v -> k ∈ map fst m.
Proof.
  intros H. destruct (decide (k ∈ map fst m)) as [|Hn]; [assumption|].
  apply get_None_iff in Hn. congruence.
Qed.

Lemma set_fresh k v m : k ∉ map fst m -> JsMap.set k v m = m ++ [(k, v)].
Proof.
  induction m as [|[k' v'] m IH]; simpl; [reflexivity|].
  rewrite not_elem_of_cons. intros [Hne Hn].
  destruct (String.eqb_spec k k'); [contradiction|].
  rewrite IH by assumption. reflexivity.
Qed.

Lemma keys_set_present k v m :
  k ∈ map fst m -> map fst (JsMap.set k v m) = map fst m.
Proof.
  induction m as [|[k' v'] m IH]; simpl.
  - intros H. apply elem_of_nil in H. contradiction.
  - destruct (String.eqb_spec k k') as [->|Hne]; simpl; [reflexivity|].
    rewrite elem_of_cons. intros [?|Hin]; [contradiction|].
    rewrite IH by assumption. reflexivity.
Qed.

Lemma keys_set k v m :
  map fst (JsMap.set k v m)
  = if decide (k ∈ map fst m) then map fst m else map fst m ++ [k].
Proof.
  destruct (decide (k ∈ map fst m)) as [Hin|Hn].
  - apply keys_set_present, Hin.
  - rewrite set_fresh by assumption. rewrite map_app. reflexivity.
Qed.

Lemma NoDup_keys_set k v m :
  NoDup (map fst m) -> NoDup (map fst (JsMap.set k v m)).
Proof.
  intros Hnd. rewrite keys_set. destruct (decide (k ∈ map fst m)); [assumption|].
  apply NoDup_app. split; [assumption|]. split.
  - intros x Hx Hx'. apply list_elem_of_singleton in Hx'. congruence.
  - apply NoDup_singleton.
Qed.

Lemma Forall_keys_set (P : string -> Prop) k v m :
  P k -> Forall (fun kv => P (fst kv)) m ->
  Forall (fun kv => P (fst kv)) (JsMap.set k v m).
Proof.
  intros Hk. induction m as [|[k' v'] m IH]; simpl; intros Hm.
  - constructor; [exact Hk|constructor].
  - inversion Hm as [|? ? H1 H2]; subst.
    destruct (String.eqb k k'); constructor; auto.
Qed.

Lemma keys_delete_sub k m x :
  x ∈ map fst (JsMap.delete k m) -> x ∈ map fst m.
Proof.
  induction m as [|[k' v'] m IH]; simpl; [auto|].
  destruct (String.eqb k k'); simpl.
  - intros H. apply elem_of_cons. right. exact H.
  - rewrite !elem_of_cons. intros [->|H]; [left; reflexivity|right; auto].
Qed.

Lemma NoDup_keys_delete k m :
  NoDup (map fst m) -> NoDup (map fst (JsMap.delete k m)).
Proof.
  induction m as [|[k' v'] m IH]; simpl; [auto|].
  rewrite NoDup_cons. intros [Hn Hnd].
  destruct (String.eqb k k'); simpl; [assumption|].
  apply NoDup_cons. split; [|auto].
  intros H. apply Hn. eapply keys_delete_sub, H.
Qed.

Lemma Forall_keys_delete (P : string -> Prop) k m :
  Forall (fun kv => P (fst kv)) m ->
  Forall (fun kv => P (fst kv)) (JsMap.delete k m).
Proof.
  induction m as [|[k' v'] m IH]; simpl; intros Hm; [constructor|].
  inversion Hm; subst. destruct (String.eqb k k'); [assumption|].
  constructor; auto.
Qed.

Lemma get_delete_eq k m :
  NoDup (map fst m) -> JsMap.get k (JsMap.delete k m) = None.
Proof.
  induction m as [|[k' v'] m IH]; simpl; [reflexivity|].
  rewrite NoDup_cons. intros [Hn Hnd].
  destruct (String.eqb_spec k k') as [->|Hne]; simpl.
  - apply get_None_iff, Hn.
  - destruct (String.eqb_spec k k'); [contradiction|]. auto.
Qed.

End JsMapFacts.

(** ** Headers: the invariant and the copy *)

Section HeadersFacts.

Implicit Types (h : Headers.t) (m : JsMap.t).

Lemma keys_ok_set_entry m kv : keys_ok m -> keys_ok (Headers.set_entry m kv).
Proof.
  intros [Hl Hn]. split.
  - apply (Forall_keys_set lower_case); [apply lower_case_toLowerCase|exact Hl].
  - apply NoDup_keys_set, Hn.
Qed.

Lemma keys_ok_fold l m :
  keys_ok m -> keys_ok (fold_left Headers.set_entry l m).
Proof.
  revert m. induction l as [|kv l IH]; simpl; intros m Hm; [exact Hm|].
  apply IH, keys_ok_set_entry, Hm.
Qed.

Lemma keys_ok_empty : keys_ok JsMap.empty.
Proof. split; [constructor|apply NoDup_nil_2]. Qed.

Lemma wf_new init : Headers.wf (Headers.new init).
Proof.
  destruct init as [[h|items|es]|]; simpl;
    solve [apply keys_ok_fold, keys_ok_empty | apply keys_ok_empty].
Qed.

Lemma wf_set n v h : Headers.wf h -> Headers.wf (Headers.set n v h).
Proof. intros H. apply (keys_ok_set_entry _ (n, v)), H. Qed.

Lemma wf_append n v h : Headers.wf h -> Headers.wf (Headers.append n v h).
Proof.
  intros H. unfold Headers.append.
  destruct (JsMap.get _ _) as [existing|];
    [destruct (truthy_string existing)|];
    first [apply (keys_ok_set_entry _ (n, _)), H].
Qed.

Lemma wf_delete n h : Headers.wf h -> Headers.wf (Headers.delete n h).
Proof.
  intros [Hl Hn]. split; simpl.
  - apply (Forall_keys_delete lower_case), Hl.
  - apply NoDup_keys_delete, Hn.
Qed.

(** Copying a well-formed map entry by entry rebuilds it. *)
Lemma fold_set_entry_copy l m :
  Forall (fun kv => lower_case (fst kv)) l ->
  NoDup (map fst (m ++ l)) ->
  fold_left Headers.set_entry l m = m ++ l.
Proof.
  revert m. induction l as [|[k v] l IH]; simpl; intros m Hl Hn.
  - rewrite app_nil_r. reflexivity.
  - inversion Hl as [|? ? Hk Hl']; subst. simpl in Hk.
    unfold Headers.set_entry at 2. simpl. rewrite Hk.
    rewrite set_fresh.
    + rewrite IH; [rewrite <- app_assoc; reflexivity|exact Hl'|].
      rewrite <- app_assoc. exact Hn.
    + rewrite map_app in Hn. apply NoDup_app in Hn as (_ & Hd & _).
      intros Hin. apply (Hd k Hin). simpl. apply elem_of_cons. left. reflexivity.
Qed.

Lemma new_copy h : Headers.wf h -> Headers.new (Some (Headers.InitHeaders h)) = h.
Proof.
  intros [Hl Hn]. destruct h as [m]. simpl in *. f_equal.
  apply (fold_set_entry_copy m []); assumption.
Qed.

Lemma get_set_same n n' v h :
  toLowerCase n' = toLowerCase n ->
  Headers.get n' (Headers.set n v h) = Some v.
Proof.
  intros E. unfold Headers.get, Headers.set. simpl. rewrite E. apply get_set_eq.
Qed.

Lemma get_set_other n n' v h :
  toLowerCase n' <> toLowerCase n ->
  Headers.get n' (Headers.set n v h) = Headers.get n' h.
Proof.
  intros E. unfold Headers.get, Headers.set. simpl.
  apply get_set_ne. congruence.
Qed.

(** [append] on a name that is absent is [set]. *)
Lemma append_absent n v h :
  Headers.get n h = None -> Headers.append n v h = Headers.set n v h.
Proof.
  unfold Headers.get, Headers.append, Headers.set. intros ->. reflexivity.
Qed.

(** [append] on a name whose value is not empty joins with a comma. *)
Lemma append_present n v1 v2 h :
  Headers.get n h = Some v1 -> v1 <> "" ->
  Headers.append n v2 h = Headers.set n (v1 +:+ ", " +:+ v2) h.
Proof.
  unfold Headers.get, Headers.append, Headers.set. intros -> Hne.
  destruct v1; [contradiction|reflexivity].
Qed.

(** [append] on a name whose value is the empty string replaces it. *)
Lemma append_present_empty n v2 h :
  Headers.get n h = Some "" ->
  Headers.append n v2 h = Headers.set n v2 h.
Proof.
  unfold Headers.get, Headers.append, Headers.set. intros ->. reflexivity.
Qed.

End HeadersFacts.

(** ** Body accessors *)

Ltac accessor_cases a r :=
  destruct r; simpl in *; subst; destruct a; reflexivity.

Section BodyFacts.

Context `{JSONBuiltins}.

Lemma response_consume_used a r h :
  Response._bodyUsed r = true ->
  Response.consume a (r, h) = (Throw consumed_error, (r, h)).
Proof. intros Hu. accessor_cases a r. Qed.

Lemma request_consume_used a r h :
  Request._bodyUsed r = true ->
  Request.consume a (r, h) = (Throw consumed_error, (r, h)).
Proof. intros Hu. accessor_cases a r. Qed.

Lemma response_text_fresh r h :
  Response._bodyUsed r = false ->
  Response.text (r, h)
  = (Normal (body_text (Response._body r) h), (Response.set_bodyUsed true r, h)).
Proof. intros Hu. destruct r as [? ? ? [b|] ?]; simpl in *; subst; reflexivity. Qed.

Lemma request_text_fresh r h :
  Request._bodyUsed r = false ->
  Request.text (r, h)
  = (Normal (body_text (Request._body r) h), (Request.set_bodyUsed true r, h)).
Proof. intros Hu. destruct r as [? ? ? [b|] ?]; simpl in *; subst; reflexivity. Qed.

Lemma response_json_fresh r h :
  Response._bodyUsed r = false ->
  Response.json (r, h)
  = (JSON_parse (body_text (Response._body r) h),
     (Response.set_bodyUsed true r, h)).
Proof.
  intros Hu. unfold Response.json.
  rewrite (bind_normal _ _ _ _ _ (response_text_fresh r h Hu)). reflexivity.
Qed.

Lemma request_json_fresh r h :
  Request._bodyUsed r = false ->
  Request.json (r, h)
  = (JSON_parse (body_text (Request._body r) h),
     (Request.set_bodyUsed true r, h)).
Proof.
  intros Hu. unfold Request.json.
  rewrite (bind_normal _ _ _ _ _ (request_text_fresh r h Hu)). reflexivity.
Qed.

(** Whatever its completion, a call on an unconsumed body leaves the flag
  set. *)
Lemma response_consume_fresh a r h :
  Response._bodyUsed r = false ->
  exists c h', Response.consume a (r, h) = (c, (Response.set_bodyUsed true r, h')).
Proof.
  intros Hu. destruct a; simpl.
  - rewrite (bind_normal _ _ _ _ _ (response_text_fresh r h Hu)). eauto.
  - destruct r as [? ? ? [b|] ?]; simpl in *; subst; eauto.
  - destruct r as [? ? ? [b|] ?]; simpl in *; subst; eauto.
  - unfold bind. rewrite (response_json_fresh r h Hu).
    destruct (JSON_parse _); eauto.
Qed.

Lemma request_consume_fresh a r h :
  Request._bodyUsed r = false ->
  exists c h', Request.consume a (r, h) = (c, (Request.set_bodyUsed true r, h')).
Proof.
  intros Hu. destruct a; simpl.
  - rewrite (bind_normal _ _ _ _ _ (request_text_fresh r h Hu)). eauto.
  - destruct r as [? ? ? [b|] ?]; simpl in *; subst; eauto.
  - destruct r as [? ? ? [b|] ?]; simpl in *; subst; eauto.
  - unfold bind. rewrite (request_json_fresh r h Hu).
    destruct (JSON_parse _); eauto.
Qed.

Lemma response_calls_used accs r h :
  Response._bodyUsed r = true ->
  response_calls accs (r, h)
  = (replicate (length accs) (Throw consumed_error), (r, h)).
Proof.
  intros Hu. induction accs as [|a accs IH]; simpl; [reflexivity|].
  rewrite response_consume_used by assumption. rewrite IH. reflexivity.
Qed.

Lemma request_calls_used accs r h :
  Request._bodyUsed r = true ->
  request_calls accs (r, h)
  = (replicate (length accs) (Throw consumed_error), (r, h)).
Proof.
  intros Hu. induction accs as [|a accs IH]; simpl; [reflexivity|].
  rewrite request_consume_used by assumption. rewrite IH. reflexivity.
Qed.

(** A list of completions in which only the head may be normal. *)
Lemma head_then_consumed (c : Completion BodyValue) n :
  at_most_one_success (c :: replicate n (Throw consumed_error)).
Proof.
  assert (Hf : filter (fun c => is_normal c = true)
                 (replicate n (Throw (A:=BodyValue) consumed_error)) = []).
  { induction n as [|n IH]; simpl; [reflexivity|].
    rewrite filter_cons_False; [exact IH|]. simpl. discriminate. }
  split.
  - destruct (decide (is_normal c = true)).
    + rewrite filter_cons_True by assumption. rewrite Hf. simpl. lia.
    + rewrite filter_cons_False by assumption. rewrite Hf. simpl. lia.
  - intros i j v Hi Hij Hj. destruct j as [|j]; [lia|]. simpl in *.
    rewrite length_replicate in Hj.
    apply lookup_replicate_2. lia.
Qed.

Lemma all_consumed n :
  at_most_one_success (replicate n (Throw consumed_error)).
Proof.
  destruct n as [|n]; simpl.
  - split; [simpl; lia|]. intros i j v Hi. rewrite lookup_nil in Hi. discriminate.
  - apply head_then_consumed.
Qed.

Lemma response_calls_shape accs s :
  at_most_one_success (fst (response_calls accs s)).
Proof.
  destruct s as [r h]. destruct (Response._bodyUsed r) eqn:Hu.
  - rewrite response_calls_used by assumption. apply all_consumed.
  - destruct accs as [|a accs]; simpl.
    + apply (all_consumed 0).
    + destruct (response_consume_fresh a r h Hu) as (c & h' & ->).
      rewrite response_calls_used by (destruct r; reflexivity).
      apply head_then_consumed.
Qed.

Lemma request_calls_shape accs s :
  at_most_one_success (fst (request_calls accs s)).
Proof.
  destruct s as [r h]. destruct (Request._bodyUsed r) eqn:Hu.
  - rewrite request_calls_used by assumption. apply all_consumed.
  - destruct accs as [|a accs]; simpl.
    + apply (all_consumed 0).
    + destruct (request_consume_fresh a r h Hu) as (c & h' & ->).
      rewrite request_calls_used by (destruct r; reflexivity).
      apply head_then_consumed.
Qed.

Lemma response_consume_sets_flag a s c s' :
  Response.consume a s = (c, s') -> is_normal c = true ->
  Response._bodyUsed (fst s') = true.
Proof.
  destruct s as [r h]. destruct (Response._bodyUsed r) eqn:Hu.
  - rewrite response_consume_used by assumption. intros [= <- <-]. discriminate.
  - destruct (response_consume_fresh a r h Hu) as (c0 & h' & ->).
    intros [= <- <-] _. destruct r; reflexivity.
Qed.

Lemma request_consume_sets_flag a s c s' :
  Request.consume a s = (c, s') -> is_normal c = true ->
  Request._bodyUsed (fst s') = true.
Proof.
  destruct s as [r h]. destruct (Request._bodyUsed r) eqn:Hu.
  - rewrite request_consume_used by assumption. intros [= <- <-]. discriminate.
  - destruct (request_consume_fresh a r h Hu) as (c0 & h' & ->).
    intros [= <- <-] _. destruct r; reflexivity.
Qed.

End BodyFacts.

(** ** Consuming a body *)

(** C3. On a Request and on a Response, among any sequence of calls of
  [text], [arrayBuffer], [blob] and [json] at most one completes normally,
  every call made after a normal one fails with the body-already-consumed
  error, and a call that completes normally leaves the consumed flag set. *)
Theorem body_consumed_at_most_once `{JSONBuiltins} :
  (forall accs (s : Request.t * Heap),
      at_most_one_success (fst (request_calls accs s)))
  /\ (forall accs (s : Response.t * Heap),
      at_most_one_success (fst (response_calls accs s)))
  /\ (forall a (s s' : Request.t * Heap) v,
        Request.consume a s = (Normal v, s') ->
        Request.bodyUsed (fst s') = true)
  /\ (forall a (s s' : Response.t * Heap) v,
        Response.consume a s = (Normal v, s') ->
        Response.bodyUsed (fst s') = true).
Proof.
  split; [|split; [|split]].
  - intros accs s. apply request_calls_shape.
  - intros accs s. apply response_calls_shape.
  - intros a s s' v E. eapply request_consume_sets_flag; [exact E|reflexivity].
  - intros a s s' v E. eapply response_consume_sets_flag; [exact E|reflexivity].
Qed.

Lemma body_consumed_at_most_once_witness :
  fst (response_calls (H:=JSONRef.builtins) [AText; AJson; ABlob]
         (ex_response, ex_heap)) !! 2
  = Some (Throw consumed_error)
  /\ Request.bodyUsed
       (fst (snd (Request.consume (H:=JSONRef.builtins) ABlob
                    (ex_request, ex_heap)))) = true.
Proof.
  destruct (@body_consumed_at_most_once JSONRef.builtins)
    as (_ & Hres & Hreq & _).
  split.
  - destruct (Hres [AText; AJson; ABlob] (ex_response, ex_heap)) as [_ Hlater].
    apply (Hlater 0 2 (VText "{oops")); [reflexivity|lia|simpl; lia].
  - eapply (Hreq ABlob (ex_request, ex_heap)). reflexivity.
Defined.

(** C10. On a Request or a Response whose body has not been consumed and
  whose text [JSON.parse] rejects, [json()] fails with the error of the
  parser and leaves the body consumed: the message is not in the state it
  had, every consuming accessor then fails with the body-already-consumed
  error, and [clone()] fails. *)
Theorem json_parse_failure_consumes `{JSONBuiltins} :
  (forall (r : Request.t) h e,
      Request.bodyUsed r = false ->
      JSON_parse (body_text (Request._body r) h) = Throw e ->
      exists r',
        Request.json (r, h) = (Throw e, (r', h))
        /\ Request.bodyUsed r' = true
        /\ r' <> r
        /\ (forall a, Request.consume a (r', h) = (Throw consumed_error, (r', h)))
        /\ Request.clone (r', h) = (Throw request_clone_error, (r', h)))
  /\ (forall (r : Response.t) h e,
      Response.bodyUsed r = false ->
      JSON_parse (body_text (Response._body r) h) = Throw e ->
      exists r',
        Response.json (r, h) = (Throw e, (r', h))
        /\ Response.bodyUsed r' = true
        /\ r' <> r
        /\ (forall a, Response.consume a (r', h) = (Throw consumed_error, (r', h)))
        /\ Response.clone (r', h) = (Throw response_clone_error, (r', h))).
Proof.
  split.
  - intros r h e Hu Hp. exists (Request.set_bodyUsed true r).
    split; [|split; [|split; [|split]]].
    + rewrite request_json_fresh by exact Hu. rewrite Hp. reflexivity.
    + reflexivity.
    + intros E. rewrite <- E in Hu. discriminate.
    + intros a. apply request_consume_used. reflexivity.
    + reflexivity.
  - intros r h e Hu Hp. exists (Response.set_bodyUsed true r).
    split; [|split; [|split; [|split]]].
    + rewrite response_json_fresh by exact Hu. rewrite Hp. reflexivity.
    + reflexivity.
    + intros E. rewrite <- E in Hu. discriminate.
    + intros a. apply response_consume_used. reflexivity.
    + reflexivity.
Qed.

Lemma json_parse_failure_consumes_witness :
  (exists r',
      Request.json (H:=JSONRef.builtins) (ex_request, ex_heap)
      = (Throw (mkError SyntaxErrorE "Unexpected token in JSON"), (r', ex_heap))
      /\ Request.bodyUsed r' = true)
  /\ (exists r',
      Response.json (H:=JSONRef.builtins) (ex_response, ex_heap)
      = (Throw (mkError SyntaxErrorE "Unexpected token in JSON"), (r', ex_heap))
      /\ Response.bodyUsed r' = true).
Proof.
  destruct (@json_parse_failure_consumes JSONRef.builtins) as [Hreq Hres].
  split.
  - destruct (Hreq ex_request ex_heap
                (mkError SyntaxErrorE "Unexpected token in JSON"))
      as (r' & E & Hu & _); [reflexivity|reflexivity|].
    exists r'. split; [exact E|exact Hu].
  - destruct (Hres ex_response ex_heap
                (mkError SyntaxErrorE "Unexpected token in JSON"))
      as (r' & E & Hu & _); [reflexivity|reflexivity|].
    exists r'. split; [exact E|exact Hu].
Defined.

(** ** Buffers *)

Lemma read_alloc h bs : Buffer.read (length h) (h ++ [bs]) = bs.
Proof.
  unfold Buffer.read. rewrite lookup_app_r by lia.
  rewrite Nat.sub_diag. reflexivity.
Qed.

Lemma read_after_copy b h :
  Buffer.read b (h ++ [Buffer.read b h]) = Buffer.read b h.
Proof.
  destruct (decide (b < length h)) as [Hlt|Hge].
  - unfold Buffer.read. rewrite lookup_app_l by exact Hlt. reflexivity.
  - assert (Hr : Buffer.read b h = []).
    { unfold Buffer.read. rewrite lookup_ge_None_2 by lia. reflexivity. }
    rewrite Hr. unfold Buffer.read.
    destruct (decide (b = length h)) as [->|Hne].
    + rewrite lookup_app_r by lia. rewrite Nat.sub_diag. reflexivity.
    + rewrite lookup_ge_None_2; [reflexivity|].
      rewrite length_app. simpl. lia.
Qed.

Lemma read_write_ne b b' i x h :
  b <> b' -> Buffer.read b' (Buffer.write b i x h) = Buffer.read b' h.
Proof.
  intros Hne. unfold Buffer.read, Buffer.write.
  rewrite list_lookup_insert_ne by exact Hne. reflexivity.
Qed.

Lemma toString_from_string s h :
  Buffer.toString (length h) (h ++ [String.list_byte_of_string s]) = s.
Proof.
  unfold Buffer.toString. rewrite read_alloc.
  apply String.string_of_list_byte_of_string.
Qed.

(** ** clone *)

Lemma request_clone_fresh r h :
  Request._bodyUsed r = false ->
  Request.clone (r, h)
  = match Request._body r with
    | Some b =>
        (Normal (Request.mk (Request.method r) (Request.url r)
                   (Headers.new (Some (Headers.InitHeaders (Request.headers r))))
                   (Some (length h)) false),
         (r, h ++ [Buffer.read b h]))
    | None =>
        (Normal (Request.mk (Request.method r) (Request.url r)
                   (Headers.new (Some (Headers.InitHeaders (Request.headers r))))
                   None false),
         (r, h))
    end.
Proof.
  intros Hu. destruct r as [? ? ? [b|] ?]; simpl in *; subst; reflexivity.
Qed.

Lemma response_clone_fresh r h :
  Response._bodyUsed r = false ->
  Response.clone (r, h)
  = (Normal (Response.mk (Response.status r) (Response.statusText r)
               (Headers.new (Some (Headers.InitHeaders (Response.headers r))))
               (Response._body r) false),
     (r, h)).
Proof.
  intros Hu. destruct r as [? ? ? [b|] ?]; simpl in *; subst; reflexivity.
Qed.

(** The bytes of a Response's clone are not independent of the original's:
  the clone holds the buffer of the original, so a write into that buffer
  changes what the clone reads. *)
Lemma response_clone_not_independent :
  ~ (forall (r : Response.t) (h : Heap),
        Response.bodyUsed r = false ->
        exists c h',
          Response.clone (r, h) = (Normal c, (r, h'))
          /\ independent_body (Response._body r) (Response._body c) h').
Proof.
  intros Hall.
  destruct (Hall ex_response ex_heap eq_refl) as (c & h' & E & Hind).
  rewrite response_clone_fresh in E by reflexivity.
  injection E as <- <-.
  specialize (Hind 0 0 x48 eq_refl). vm_compute in Hind. discriminate.
Qed.

(** C4. At the failing input the clone of a Response is not over a copy
  of the bytes. A Response built on a Buffer holds that Buffer, and its
  clone holds it too: a write into the Buffer after the clone was made
  changes what the clone reads. The clone of a Request over the same
  bytes reads what it was made from. *)
Theorem response_clone_shares_buffer :
  exists r c,
    Response.new (Some (BodyBuffer 0)) None ex_heap = (Normal r, ex_heap)
    /\ Response.clone (r, ex_heap) = (Normal c, (r, ex_heap))
    /\ Response._body c = Some 0
    /\ fst (Response.text (c, ex_heap)) = Normal "{oops"
    /\ fst (Response.text (c, Buffer.write 0 0 x48 ex_heap)) = Normal "Hoops"
    /\ (exists c' h',
          Request.clone (ex_request, ex_heap) = (Normal c', (ex_request, h'))
          /\ fst (Request.text (c', Buffer.write 0 0 x48 h')) = Normal "{oops").
Proof.
  eexists _, _. split; [reflexivity|]. split; [reflexivity|].
  split; [reflexivity|]. split; [reflexivity|]. split; [reflexivity|].
  eexists _, _. split; reflexivity.
Qed.

(** X22. [clone()] of an unconsumed Request or Response succeeds, leaves
  the original as it is, and yields an unconsumed message with the same
  metadata and headers whose body reads as the original's. The bytes of a
  Request's clone are a copy in a new buffer, which a write into the
  original's buffer does not reach. [clone()] of a consumed message fails
  with the clone-after-consumption error and changes nothing. *)
Theorem clone_of_unconsumed_message :
  (forall (r : Request.t) (h : Heap),
      Request.bodyUsed r = false ->
      Headers.wf (Request.headers r) ->
      exists c h',
        Request.clone (r, h) = (Normal c, (r, h'))
        /\ Request.bodyUsed c = false
        /\ Request.method c = Request.method r
        /\ Request.url c = Request.url r
        /\ Request.headers c = Request.headers r
        /\ body_text (Request._body c) h' = body_text (Request._body r) h
        /\ body_text (Request._body r) h' = body_text (Request._body r) h
        /\ ((forall b, Request._body r = Some b -> b < length h) ->
            independent_body (Request._body r) (Request._body c) h'))
  /\ (forall (r : Response.t) (h : Heap),
      Response.bodyUsed r = false ->
      Headers.wf (Response.headers r) ->
      exists c h',
        Response.clone (r, h) = (Normal c, (r, h'))
        /\ Response.bodyUsed c = false
        /\ Response.status c = Response.status r
        /\ Response.statusText c = Response.statusText r
        /\ Response.headers c = Response.headers r
        /\ body_text (Response._body c) h' = body_text (Response._body r) h
        /\ body_text (Response._body r) h' = body_text (Response._body r) h)
  /\ (forall (r : Request.t) (h : Heap),
      Request.bodyUsed r = true ->
      Request.clone (r, h) = (Throw request_clone_error, (r, h)))
  /\ (forall (r : Response.t) (h : Heap),
      Response.bodyUsed r = true ->
      Response.clone (r, h) = (Throw response_clone_error, (r, h))).
Proof.
  split; [|split; [|split]].
  - intros r h Hu Hwf. rewrite request_clone_fresh by exact Hu.
    destruct (Request._body r) as [b|] eqn:Hb.
    + eexists _, _. split; [reflexivity|]. simpl.
      split; [reflexivity|]. split; [reflexivity|]. split; [reflexivity|].
      split; [apply new_copy, Hwf|].
      split; [unfold Buffer.toString; rewrite read_alloc; reflexivity|].
      split; [unfold Buffer.toString; rewrite read_after_copy; reflexivity|].
      intros Halloc b0 i x [= <-]. simpl. unfold Buffer.toString.
      rewrite read_write_ne; [reflexivity|].
      specialize (Halloc b eq_refl). lia.
    + eexists _, _. split; [reflexivity|]. simpl.
      split; [reflexivity|]. split; [reflexivity|]. split; [reflexivity|].
      split; [apply new_copy, Hwf|].
      split; [reflexivity|]. split; [reflexivity|].
      intros _ b0 i x [=].
  - intros r h Hu Hwf. rewrite response_clone_fresh by exact Hu.
    eexists _, _. split; [reflexivity|]. simpl.
    split; [reflexivity|]. split; [reflexivity|]. split; [reflexivity|].
    split; [apply new_copy, Hwf|]. split; reflexivity.
  - intros r h Hu. unfold Request.bodyUsed in Hu.
    unfold Request.clone. simpl. rewrite Hu. reflexivity.
  - intros r h Hu. unfold Response.bodyUsed in Hu.
    unfold Response.clone. simpl. rewrite Hu. reflexivity.
Qed.

Lemma clone_of_unconsumed_message_witness :
  (exists c h',
      Request.clone (ex_request, ex_heap) = (Normal c, (ex_request, h'))
      /\ Request.headers c = Request.headers ex_request
      /\ body_text (Request._body c) h' = "{oops"
      /\ independent_body (Request._body ex_request) (Request._body c) h')
  /\ (exists c h',
      Response.clone (ex_response, ex_heap) = (Normal c, (ex_response, h'))
      /\ body_text (Response._body c) h' = "{oops")
  /\ Request.clone (Request.set_bodyUsed true ex_request, ex_heap)
     = (Throw request_clone_error,
        (Request.set_bodyUsed true ex_request, ex_heap))
  /\ Response.clone (Response.set_bodyUsed true ex_response, ex_heap)
     = (Throw response_clone_error,
        (Response.set_bodyUsed true ex_response, ex_heap)).
Proof.
  destruct clone_of_unconsumed_message as (Hreq & Hres & Hreq' & Hres').
  split; [|split; [|split]].
  - destruct (Hreq ex_request ex_heap eq_refl (wf_new _))
      as (c & h' & E & _ & _ & _ & Hh & Ht & _ & Hi).
    exists c, h'. split; [exact E|]. split; [exact Hh|]. split; [exact Ht|].
    apply Hi. intros b [= <-]. simpl. lia.
  - destruct (Hres ex_response ex_heap eq_refl (wf_new _))
      as (c & h' & E & _ & _ & _ & _ & Ht & _).
    exists c, h'. split; [exact E|exact Ht].
  - apply Hreq'. reflexivity.
  - apply Hres'. reflexivity.
Defined.

(** ** The wire conversion *)

(** C9. [_toJsResponse] yields the status, the headers as the sequence of
  the map's entries, each name lower-case, and the body buffer if there is
  one; it returns the Response in the state it had, consumed flag
  included, so every body accessor completes after it as it would have
  before. *)
Theorem toJsResponse_frame `{JSONBuiltins} (r : Response.t) (h : Heap) :
  Headers.wf (Response.headers r) ->
  exists js,
    Response._toJsResponse (r, h) = (Normal js, (r, h))
    /\ js_status js = Response.status r
    /\ map (fun p => (hp_name p, hp_value p)) (js_headers js)
       = Headers.entries (Response.headers r)
    /\ Forall (fun p => lower_case (hp_name p)) (js_headers js)
    /\ js_body js = Response._body r
    /\ Response.bodyUsed (fst (snd (Response._toJsResponse (r, h))))
       = Response.bodyUsed r
    /\ (forall a,
          Response.consume a (snd (Response._toJsResponse (r, h)))
          = Response.consume a (r, h)).
Proof.
  intros [Hl _]. eexists. split; [reflexivity|]. simpl.
  split; [reflexivity|]. split; [|split; [|split; [reflexivity|split; reflexivity]]].
  - unfold Headers.toJsHeaders, Headers.entries, JsMap.entries.
    rewrite map_map. simpl. clear Hl.
    induction (Headers._headers (Response.headers r)) as [|[k v] m IH];
      simpl; [reflexivity|]. rewrite IH. reflexivity.
  - unfold Headers.toJsHeaders, JsMap.entries. apply Forall_map.
    exact Hl.
Qed.

Lemma toJsResponse_frame_witness :
  exists js,
    Response._toJsResponse (ex_response, ex_heap)
    = (Normal js, (ex_response, ex_heap))
    /\ js_headers js = [mkHeaderPair "content-type" "text/plain"]
    /\ js_body js = Some 0.
Proof.
  destruct (@toJsResponse_frame JSONRef.builtins ex_response ex_heap (wf_new _))
    as (js & E & _ & Hh & _ & Hb & _).
  exists js. split; [exact E|]. split; [|exact Hb].
  injection E as <-. reflexivity.
Defined.

(** Every Response that the constructor builds satisfies the invariant of
  its headers. *)
Lemma response_new_wf body init h r h' :
  Response.new body init h = (Normal r, h') -> Headers.wf (Response.headers r).
Proof.
  unfold Response.new, bind.
  destruct body as [[s|b|ab|a]|]; simpl; intros [= <- <-]; apply wf_new.
Qed.

(** ** Response.redirect *)

Lemma redirect_status_decide (s : Z) :
  existsb (Z.eqb s) Response.redirect_statuses = true <-> is_redirect_status s.
Proof.
  unfold Response.redirect_statuses, is_redirect_status. simpl.
  rewrite !orb_true_iff, !Z.eqb_eq. intuition discriminate.
Qed.

(** C8. [Response.redirect(url, status)] throws, allocating nothing, when
  the status is not 301, 302, 303, 307 or 308; for a status among them it
  returns a Response with that status, the header [location] set to the
  url and no body; an omitted status is 302. *)
Theorem redirect_validates_status (url : string) (status : option Z) (h : Heap) :
  let s := default 302%Z status in
  (~ is_redirect_status s ->
   Response.redirect url status h
   = (Throw (mkError RangeErrorE ("Invalid redirect status: " +:+ pretty s)), h))
  /\ (is_redirect_status s ->
      exists r,
        Response.redirect url status h = (Normal r, h)
        /\ Response.status r = s
        /\ Headers.get "location" (Response.headers r) = Some url
        /\ Response._body r = None
        /\ Response.bodyUsed r = false
        /\ fst (Response.text (r, h)) = Normal "")
  /\ Response.redirect url None h = Response.redirect url (Some 302%Z) h.
Proof.
  intros s. split; [|split; [|reflexivity]].
  - intros Hn. unfold Response.redirect. fold s.
    destruct (existsb (Z.eqb s) Response.redirect_statuses) eqn:E.
    + apply redirect_status_decide in E. contradiction.
    + reflexivity.
  - intros Hs. unfold Response.redirect. fold s.
    apply redirect_status_decide in Hs. rewrite Hs. simpl.
    eexists. split; [reflexivity|]. simpl.
    split; [reflexivity|]. split; [|split; [reflexivity|split; reflexivity]].
    reflexivity.
Qed.

Lemma redirect_validates_status_witness :
  Response.redirect "/" (Some 200%Z) []
  = (Throw (mkError RangeErrorE "Invalid redirect status: 200"), [])
  /\ (exists r,
      Response.redirect "https://example.com" None [] = (Normal r, [])
      /\ Response.status r = 302%Z
      /\ Headers.get "location" (Response.headers r) = Some "https://example.com").
Proof.
  split.
  - apply (redirect_validates_status "/" (Some 200%Z) []).
    unfold is_redirect_status. simpl. lia.
  - destruct (redirect_validates_status "https://example.com" None [])
      as (_ & Hok & _).
    destruct Hok as (r & E & Hs & Hl & _).
    + unfold is_redirect_status. simpl. lia.
    + exists r. split; [exact E|]. split; [exact Hs|exact Hl].
Defined.

(** ** Response.json *)

Lemma static_json_result `{JSONBuiltins} data init h body :
  JSON_stringify data = Normal body ->
  Response.static_json data init h
  = Response.new (BodyString <$> body)
      (Some (Response.mkInit (init ≫= Response.i_status)
               (init ≫= Response.i_statusText)
               (Some (Headers.InitHeaders
                        (Headers.set "content-type" "application/json"
                           (Headers.new (init ≫= Response.i_headers)))))))
      h.
Proof. unfold Response.static_json. intros ->. reflexivity. Qed.

Lemma response_new_string s st stt hi h :
  Response.new (Some (BodyString s)) (Some (Response.mkInit st stt hi)) h
  = (Normal (Response.mk (default 200%Z st) (default "OK" stt)
               (Headers.new hi) (Some (length h)) false),
     h ++ [String.list_byte_of_string s]).
Proof. reflexivity. Qed.

Lemma response_new_null st stt hi h :
  Response.new None (Some (Response.mkInit st stt hi)) h
  = (Normal (Response.mk (default 200%Z st) (default "OK" stt)
               (Headers.new hi) None false),
     h).
Proof. reflexivity. Qed.

(** C7, as stated, fails at [undefined]: [JSON.stringify] has no text for
  it, the Response gets no body, and [json()] on it throws. *)
Lemma response_json_undefined_not_parsed_back :
  ~ (forall (data : JsValue) (init : option Response.Init) (h : Heap),
        exists r h',
          Response.static_json (H:=JSONRef.builtins) data init h = (Normal r, h')
          /\ Headers.get "content-type" (Response.headers r)
             = Some "application/json"
          /\ fst (Response.json (H:=JSONRef.builtins) (r, h')) = Normal data).
Proof.
  intros Hall. destruct (Hall JUndefined None []) as (r & h' & E & _ & Hj).
  vm_compute in E. injection E as <- <-.
  vm_compute in Hj. discriminate.
Qed.

(** C7, amended. For every init and every data value that [JSON.stringify]
  does not throw on, [Response.json(data, init)] produces an unconsumed
  Response whose header [content-type] is [application/json], whatever
  content-type the headers of init give, and whose body text is the text
  that [JSON.stringify] returned (no body if it returned [undefined]); so
  [json()] on it yields what [JSON.parse] makes of that text, which is
  data whenever [JSON.parse] inverts [JSON.stringify] at data. *)
Theorem response_json_content_type `{JSONBuiltins}
  (data : JsValue) (init : option Response.Init) (h : Heap)
  (body : option string) :
  JSON_stringify data = Normal body ->
  exists r h',
    Response.static_json data init h = (Normal r, h')
    /\ Headers.get "content-type" (Response.headers r) = Some "application/json"
    /\ Response.bodyUsed r = false
    /\ Response.status r = default 200%Z (init ≫= Response.i_status)
    /\ body_text (Response._body r) h' = default "" body
    /\ (body = None -> Response._body r = None)
    /\ fst (Response.json (r, h')) = JSON_parse (default "" body)
    /\ (forall s, body = Some s -> JSON_parse s = Normal data ->
        fst (Response.json (r, h')) = Normal data).
Proof.
  intros Hs. rewrite (static_json_result _ _ _ _ Hs).
  set (hd := Headers.set "content-type" "application/json"
               (Headers.new (init ≫= Response.i_headers))).
  assert (Hwf : Headers.wf hd) by apply wf_set, wf_new.
  assert (Hc : Headers.new (Some (Headers.InitHeaders hd)) = hd)
    by apply new_copy, Hwf.
  assert (Hg : Headers.get "content-type" hd = Some "application/json")
    by (apply get_set_same; reflexivity).
  destruct body as [s|]; simpl fmap.
  - rewrite response_new_string, Hc.
    eexists _, _. split; [reflexivity|].
    rewrite response_json_fresh by reflexivity.
    cbn [Response.headers Response._body Response.bodyUsed Response._bodyUsed
         Response.status fst snd body_text].
    rewrite toString_from_string.
    split; [exact Hg|]. split; [reflexivity|]. split; [reflexivity|].
    split; [reflexivity|]. split; [discriminate|].
    split; [reflexivity|]. intros s' [= <-] Hp. exact Hp.
  - rewrite response_new_null, Hc.
    eexists _, _. split; [reflexivity|].
    rewrite response_json_fresh by reflexivity.
    cbn [Response.headers Response._body Response.bodyUsed Response._bodyUsed
         Response.status fst snd body_text].
    split; [exact Hg|]. split; [reflexivity|]. split; [reflexivity|].
    split; [reflexivity|]. split; [reflexivity|].
    split; [reflexivity|]. intros s' [=].
Qed.

Lemma response_json_content_type_witness :
  exists r h',
    Response.static_json (H:=JSONRef.builtins)
      (JObject [("a", JNumber 1)])
      (Some (Response.mkInit (Some 404%Z) None
               (Some (Headers.InitRecord [("Content-Type", "text/plain")]))))
      []
    = (Normal r, h')
    /\ Headers.get "content-type" (Response.headers r) = Some "application/json"
    /\ Response.status r = 404%Z
    /\ fst (Response.json (H:=JSONRef.builtins) (r, h'))
       = Normal (JObject [("a", JNumber 1)]).
Proof.
  destruct (@response_json_content_type JSONRef.builtins
              (JObject [("a", JNumber 1)])
              (Some (Response.mkInit (Some 404%Z) None
                       (Some (Headers.InitRecord
                                [("Content-Type", "text/plain")]))))
              []
              (JSONRef.stringify_value (JObject [("a", JNumber 1)]))
              eq_refl)
    as (r & h' & E & Hct & _ & Hst & _ & _ & _ & Hback).
  exists r, h'. split; [exact E|]. split; [exact Hct|]. split; [exact Hst|].
  eapply Hback; reflexivity.
Defined.

(** ** Headers.append *)

(** C6, at the failing input: a header present with the empty string as
  its value is reported by [has], yet [append] replaces the value instead
  of joining with a comma. *)
Theorem append_on_empty_value :
  let h := Headers.new (Some (Headers.InitArray [ItemTuple "X-Tag" ""])) in
  Headers.has "x-tag" h = true
  /\ Headers.get "x-tag" h = Some ""
  /\ Headers.get "x-tag" (Headers.append "X-Tag" "v2" h) = Some "v2"
  /\ Headers.get "x-tag" (Headers.append "X-Tag" "v2" h)
     <> Some ("" +:+ ", " +:+ "v2").
Proof. repeat split; try reflexivity. discriminate. Qed.

(** ** FetchEvent: the chain of respondWith *)

Section EventFacts.

Import FetchEvent.

Implicit Types (s : State) (ev : t).

Lemma respondWith_first response s :
  _responded (event s) = false ->
  exists s',
    respondWith response s = (Normal tt, s')
    /\ _responded (event s') = true
    /\ _respondCallback (event s') = _respondCallback (event s)
    /\ sink_calls (event s') = sink_calls (event s)
    /\ reactions (event s')
       = reactions (event s) ++ [Promise_resolve response]
    /\ heap s' = heap s /\ console s' = console s.
Proof.
  intros Hr. unfold respondWith. rewrite Hr.
  eexists. split; [reflexivity|]. simpl. repeat split; reflexivity.
Qed.

Lemma respondWith_again response s :
  _responded (event s) = true ->
  respondWith response s = (Throw already_responded, s).
Proof. intros Hr. unfold respondWith. rewrite Hr. reflexivity. Qed.

(** The error path with [responseSent] still false: one invocation of the
  sink with the 500 response, whose exception, if any, goes to the
  console. *)
Lemma catch_callback_unsent error s :
  let this := event s in
  let js := error_wire (length (heap s)) in
  let thrown := _respondCallback this (sink_calls this) js in
  catch_callback error (s, false)
  = (Normal tt,
     (mkState
        (mk (request this) (clientAddress this) (_responded this)
            (_respondCallback this) (_waitUntilPromises this)
            (sink_calls this ++ [mkSinkCall js thrown]) (reactions this))
        (heap s ++ [String.list_byte_of_string (error_text error)])
        (console s ++ send_failure_log thrown),
      false)).
Proof.
  destruct s as [ev h c]. destruct ev as [rq ad rs cb wu calls rx].
  cbn zeta. simpl event. simpl heap. simpl console.
  unfold catch_callback, bind, gets, try_catch, lift_sent, new_Response,
    on_response, call_respondCallback, console_error, modify, set_event.
  simpl. unfold error_wire.
  change (Headers.toJsHeaders {| Headers._headers := JsMap.empty |})
    with (@nil JsHeader).
  destruct (cb calls (mkJsResponse 500 [] (Some (length h)))) as [e|]; simpl.
  - reflexivity.
  - rewrite app_nil_r. reflexivity.
Qed.

(** The success path: one invocation of the sink with the wire form of
  the Response; [responseSent] becomes true only if the sink returned. *)
Lemma then_callback_spec res s :
  then_callback res (s, false)
  = let this := event s in
    let js := mkJsResponse (Response.status res)
                (Headers.toJsHeaders (Response.headers res))
                (Response._body res) in
    let thrown := _respondCallback this (sink_calls this) js in
    (match thrown with None => Normal tt | Some e => Throw e end,
     (mkState
        (mk (request this) (clientAddress this) (_responded this)
            (_respondCallback this) (_waitUntilPromises this)
            (sink_calls this ++ [mkSinkCall js thrown]) (reactions this))
        (heap s) (console s),
      match thrown with None => true | Some _ => false end)).
Proof.
  destruct s as [ev h c]. destruct ev as [rq ad rs cb wu calls rx].
  unfold then_callback, bind, lift_sent, on_response, call_respondCallback,
    Response._toJsResponse, gets, modify, set_event.
  simpl.
  destruct (cb calls _) as [e|]; reflexivity.
Qed.

(** What a chain does to an event whose sink has not been invoked: it
  completes normally, touches neither the flag nor the registered
  reactions, and leaves at most two invocations, the first of which threw
  if there are two. *)
Lemma chain_effect p s :
  sink_calls (event s) = [] ->
  exists s' sent,
    chain p (s, false) = (Normal tt, (s', sent))
    /\ _responded (event s') = _responded (event s)
    /\ _respondCallback (event s') = _respondCallback (event s)
    /\ reactions (event s') = reactions (event s)
    /\ calls_shape (sink_calls (event s')).
Proof.
  intros Hc. destruct p as [res|error|]; simpl.
  - unfold try_catch. rewrite then_callback_spec. cbv zeta. rewrite Hc.
    destruct (_respondCallback (event s) [] _) as [e|] eqn:Hcb.
    + rewrite catch_callback_unsent. cbv zeta. simpl.
      eexists _, _. split; [reflexivity|]. simpl.
      repeat (split; [reflexivity|]).
      right. right. eexists _, _. split; reflexivity.
    + eexists _, _. split; [reflexivity|]. simpl.
      repeat (split; [reflexivity|]).
      right. left. eexists. reflexivity.
  - rewrite catch_callback_unsent. cbv zeta. rewrite Hc.
    eexists _, _. split; [reflexivity|]. simpl.
    repeat (split; [reflexivity|]).
    right. left. eexists. reflexivity.
  - eexists _, _. split; [reflexivity|].
    repeat (split; [reflexivity|]). rewrite Hc. left. reflexivity.
Qed.

Lemma event_inv_new request addr sink :
  event_inv sink (new request addr sink).
Proof.
  split; [reflexivity|]. split; [intros _; split; reflexivity|].
  split; [left; reflexivity|]. left. reflexivity.
Qed.

Lemma event_inv_respondWith sink response s :
  event_inv sink (event s) ->
  event_inv sink (event (snd (respondWith response s))).
Proof.
  intros (Hcb & Hfresh & Hrx & Hshape).
  destruct (_responded (event s)) eqn:Hr.
  - rewrite respondWith_again by exact Hr. simpl.
    split; [exact Hcb|]. split; [intros Hf; congruence|].
    split; assumption.
  - destruct (respondWith_first response s Hr)
      as (s' & -> & Hr' & Hcb' & Hcalls & Hrx' & _). simpl.
    destruct (Hfresh eq_refl) as [Hnil Hnone].
    split; [congruence|]. split; [rewrite Hr'; discriminate|].
    split.
    + right. rewrite Hrx', Hnil, Hcalls, Hnone. split; [eexists|]; reflexivity.
    + rewrite Hcalls, Hnone. left. reflexivity.
Qed.

Lemma event_inv_run_reaction sink s :
  event_inv sink (event s) ->
  fst (run_reaction s) = Normal tt
  /\ event_inv sink (event (snd (run_reaction s))).
Proof.
  intros Hinv. pose proof Hinv as (Hcb & Hfresh & Hrx & Hshape).
  unfold run_reaction.
  destruct Hrx as [Hnil|[[p Hp] Hnone]].
  - rewrite Hnil. simpl. split; [reflexivity|exact Hinv].
  - rewrite Hp. destruct p as [res|error|].
    + match goal with
      | |- context [chain ?p (?s0, false)] =>
          destruct (chain_effect p s0 Hnone)
            as (s' & sent & -> & Hr' & Hcb' & Hrx' & Hshape')
      end.
      simpl in *. split; [reflexivity|].
      split; [congruence|]. split.
      * intros Hf. rewrite Hr' in Hf.
        destruct (Hfresh Hf) as [Hx _]. rewrite Hp in Hx. discriminate.
      * split; [left; exact Hrx'|exact Hshape'].
    + match goal with
      | |- context [chain ?p (?s0, false)] =>
          destruct (chain_effect p s0 Hnone)
            as (s' & sent & -> & Hr' & Hcb' & Hrx' & Hshape')
      end.
      simpl in *. split; [reflexivity|].
      split; [congruence|]. split.
      * intros Hf. rewrite Hr' in Hf.
        destruct (Hfresh Hf) as [Hx _]. rewrite Hp in Hx. discriminate.
      * split; [left; exact Hrx'|exact Hshape'].
    + simpl. split; [reflexivity|exact Hinv].
Qed.

Lemma event_inv_step sink a s :
  event_inv sink (event s) -> event_inv sink (event (snd (step a s))).
Proof.
  destruct a as [response|]; simpl.
  - apply event_inv_respondWith.
  - intros Hinv. apply event_inv_run_reaction, Hinv.
Qed.

Lemma event_inv_run sink acts s :
  event_inv sink (event s) -> event_inv sink (event (run acts s)).
Proof.
  revert s. induction acts as [|a acts IH]; simpl; intros s Hinv; [exact Hinv|].
  apply IH, event_inv_step, Hinv.
Qed.

Lemma calls_shape_bounds calls :
  calls_shape calls ->
  length (filter (fun c => returned c = true) calls) <= 1
  /\ length calls <= 2
  /\ (Forall (fun c => returned c = true) calls -> length calls <= 1).
Proof.
  intros [->|[[c ->]|(c1 & c2 & -> & Hc1)]].
  - simpl. repeat split; lia.
  - split; [|split; [simpl; lia|intros _; simpl; lia]].
    destruct (decide (returned c = true)).
    + rewrite filter_cons_True by assumption. simpl. lia.
    + rewrite filter_cons_False by assumption. simpl. lia.
  - split; [|split; [simpl; lia|]].
    + rewrite filter_cons_False by congruence.
      destruct (decide (returned c2 = true)).
      * rewrite filter_cons_True by assumption. simpl. lia.
      * rewrite filter_cons_False by assumption. simpl. lia.
    + intros Hall. inversion Hall; subst. congruence.
Qed.

End EventFacts.
(** ** FetchEvent: the claims *)

(** C1, as stated, fails when the sink throws on the success path: the
  chain then invokes it a second time, with the 500 response. *)
Lemma sink_invoked_twice_when_it_throws :
  ~ (forall request addr (sink : Sink) (h0 : Heap) acts,
        length (FetchEvent.sink_calls
                  (FetchEvent.event
                     (FetchEvent.run acts
                        (FetchEvent.initial request addr sink h0)))) <= 1).
Proof.
  intros Hall.
  specialize (Hall ex_request "127.0.0.1" broken_sink ex_heap
                [FetchEvent.CallRespondWith (ArgResponse ex_response);
                 FetchEvent.RunReaction]).
  vm_compute in Hall. lia.
Qed.

(** C1, amended. Whatever calls of [respondWith] and turns of the job
  queue an event has gone through since it was built, at most one
  invocation of its reply sink has returned, and the sink has been invoked
  at most once unless an invocation threw (then at most twice: the error
  path invokes it once more). A call of [respondWith] on an event not yet
  responded to sets the flag at once and invokes nothing; a call on an
  event already responded to, settled or not, throws the already-responded
  error and changes nothing. *)
Theorem respondWith_at_most_once
  (request : Request.t) (addr : string) (sink : Sink) (h0 : Heap)
  (acts : list FetchEvent.Action) :
  let s := FetchEvent.run acts (FetchEvent.initial request addr sink h0) in
  let calls := FetchEvent.sink_calls (FetchEvent.event s) in
  length (filter (fun c => returned c = true) calls) <= 1
  /\ length calls <= 2
  /\ (Forall (fun c => returned c = true) calls -> length calls <= 1)
  /\ (forall response,
        FetchEvent._responded (FetchEvent.event s) = false ->
        exists s',
          FetchEvent.respondWith response s = (Normal tt, s')
          /\ FetchEvent._responded (FetchEvent.event s') = true
          /\ FetchEvent.sink_calls (FetchEvent.event s') = calls)
  /\ (forall response,
        FetchEvent._responded (FetchEvent.event s) = true ->
        FetchEvent.respondWith response s = (Throw already_responded, s)).
Proof.
  intros s calls.
  assert (Hinv : event_inv sink (FetchEvent.event s))
    by apply event_inv_run, event_inv_new.
  destruct Hinv as (_ & _ & _ & Hshape).
  destruct (calls_shape_bounds _ Hshape) as (H1 & H2 & H3).
  split; [exact H1|]. split; [exact H2|]. split; [exact H3|]. split.
  - intros response Hr.
    destruct (respondWith_first response s Hr) as (s' & E & Hr' & _ & Hc & _).
    exists s'. split; [exact E|]. split; [exact Hr'|exact Hc].
  - intros response Hr. apply respondWith_again, Hr.
Qed.

Lemma respondWith_at_most_once_witness :
  let s := FetchEvent.run
             [FetchEvent.CallRespondWith (ArgPromise Unsettled)]
             (FetchEvent.initial ex_request "127.0.0.1" accepting_sink ex_heap) in
  FetchEvent.respondWith (ArgResponse ex_response) s
  = (Throw already_responded, s)
  /\ length (FetchEvent.sink_calls
               (FetchEvent.event
                  (FetchEvent.run
                     [FetchEvent.CallRespondWith (ArgResponse ex_response);
                      FetchEvent.RunReaction;
                      FetchEvent.CallRespondWith (ArgResponse ex_response);
                      FetchEvent.RunReaction]
                     (FetchEvent.initial ex_request "127.0.0.1"
                        accepting_sink ex_heap)))) <= 1.
Proof.
  split.
  - apply (respondWith_at_most_once ex_request "127.0.0.1" accepting_sink
             ex_heap [FetchEvent.CallRespondWith (ArgPromise Unsettled)]).
    reflexivity.
  - apply (respondWith_at_most_once ex_request "127.0.0.1" accepting_sink
             ex_heap
             [FetchEvent.CallRespondWith (ArgResponse ex_response);
              FetchEvent.RunReaction;
              FetchEvent.CallRespondWith (ArgResponse ex_response);
              FetchEvent.RunReaction]).
    repeat constructor.
Defined.

(** C2. On an event not yet responded to, [respondWith] with a promise
  that rejects with an error of message m completes normally, and when
  the chain runs the reply sink is invoked exactly once, with status 500
  and a body whose text is [Internal Server Error: ] followed by m; the
  chain completes normally whether the sink returns or throws, and what
  the sink throws goes to the console. *)
Theorem rejected_promise_sends_500
  (request : Request.t) (addr : string) (sink : Sink) (h0 : Heap)
  (acts : list FetchEvent.Action) (error : Error) :
  let s := FetchEvent.run acts (FetchEvent.initial request addr sink h0) in
  FetchEvent._responded (FetchEvent.event s) = false ->
  exists s1 s2 b thrown,
    FetchEvent.respondWith (ArgPromise (Rejected error)) s = (Normal tt, s1)
    /\ FetchEvent.run_reaction s1 = (Normal tt, s2)
    /\ FetchEvent.sink_calls (FetchEvent.event s2)
       = [mkSinkCall (mkJsResponse 500 [] (Some b)) thrown]
    /\ thrown = sink [] (mkJsResponse 500 [] (Some b))
    /\ Buffer.toString b (FetchEvent.heap s2)
       = "Internal Server Error: " +:+ emessage error
    /\ FetchEvent.console s2
       = FetchEvent.console s ++ send_failure_log thrown.
Proof.
  intros s Hr.
  assert (Hinv : event_inv sink (FetchEvent.event s))
    by apply event_inv_run, event_inv_new.
  destruct Hinv as (Hcb & Hfresh & _ & _).
  destruct (Hfresh Hr) as [Hnil Hnone].
  unfold FetchEvent.respondWith. rewrite Hr, Hnil. simpl.
  eexists _, _, (length (FetchEvent.heap s)), _.
  split; [reflexivity|].
  unfold FetchEvent.run_reaction. simpl.
  rewrite catch_callback_unsent. cbv zeta. simpl.
  rewrite Hnone, Hcb. simpl.
  split; [reflexivity|]. simpl.
  split; [reflexivity|]. split; [reflexivity|].
  split; [apply toString_from_string|reflexivity].
Qed.

Lemma rejected_promise_sends_500_witness :
  exists s1 s2 b,
    FetchEvent.respondWith (ArgPromise (Rejected (mkError ErrorE "boom")))
      (FetchEvent.initial ex_request "127.0.0.1" broken_sink ex_heap)
    = (Normal tt, s1)
    /\ FetchEvent.run_reaction s1 = (Normal tt, s2)
    /\ FetchEvent.sink_calls (FetchEvent.event s2)
       = [mkSinkCall (mkJsResponse 500 [] (Some b))
            (Some (mkError ErrorE "connection closed"))]
    /\ Buffer.toString b (FetchEvent.heap s2) = "Internal Server Error: boom"
    /\ FetchEvent.console s2
       = [("Failed to send error response:",
           mkError ErrorE "connection closed")].
Proof.
  destruct (rejected_promise_sends_500 ex_request "127.0.0.1" broken_sink
              ex_heap [] (mkError ErrorE "boom") eq_refl)
    as (s1 & s2 & b & thrown & E1 & E2 & Hcalls & Hthrown & Htext & Hlog).
  exists s1, s2, b. split; [exact E1|]. split; [exact E2|].
  rewrite Hthrown in Hcalls, Hlog.
  split; [exact Hcalls|]. split; [exact Htext|exact Hlog].
Defined.

(** ** Server: the dispatch loop *)

Lemma fromContext_result ctx h :
  FetchEvent._fromContext ctx h
  = (Normal
       (FetchEvent.new
          (Request.mk (ctx_method ctx) (ctx_url ctx)
             (Headers.new
                (Some (Headers.InitArray (map ItemPair (ctx_headers ctx)))))
             (ctx_body ctx) false)
          (ctx_clientAddress ctx) (ctx_respond ctx)),
     h).
Proof. reflexivity. Qed.

Lemma new_event_result ctx w :
  exists ev,
    Server.new_event ctx w
    = (Normal (length (w_events w)),
       mkWorld (w_events w ++ [ev]) (w_heap w) (w_console w) (_handlers w))
    /\ FetchEvent._responded ev = false
    /\ FetchEvent._respondCallback ev = ctx_respond ctx
    /\ FetchEvent.sink_calls ev = [].
Proof.
  unfold Server.new_event. rewrite fromContext_result.
  eexists. split; [reflexivity|]. repeat split; reflexivity.
Qed.

Lemma register_handlers handlers w :
  _handlers (register handlers w) = _handlers w ++ handlers.
Proof.
  revert w. induction handlers as [|handler handlers IH]; simpl; intros w.
  - rewrite app_nil_r. reflexivity.
  - unfold register in IH. rewrite IH. simpl. rewrite <- app_assoc. reflexivity.
Qed.

(** A call of a handler by the loop always completes normally: what the
  handler throws is caught and written to the console. *)
Lemma call_handler_result code handler event w :
  Server.call_handler code handler event w
  = match code handler event w with
    | (Normal _, w1) => (Normal None, w1)
    | (Throw error, w1) =>
        (Normal (Some error),
         mkWorld (w_events w1) (w_heap w1)
           (w_console w1 ++ [("Error in fetch handler:", error)])
           (_handlers w1))
    end.
Proof.
  unfold Server.call_handler, try_catch, bind.
  destruct (code handler event w) as [[[]|error] w1]; reflexivity.
Qed.

Lemma call_handlers_quiet code fuel index event w :
  quiet code event (drop index (_handlers w)) w ->
  length (_handlers w) - index < fuel ->
  exists calls w',
    Server.call_handlers code fuel index event w = Some (Normal calls, w')
    /\ map inv_handler calls = drop index (_handlers w)
    /\ Forall (fun c => inv_event c = event) calls
    /\ _handlers w' = _handlers w.
Proof.
  revert index w.
  induction fuel as [|fuel IH]; intros index w Hq Hfuel; [lia|].
  cbn [Server.call_handlers].
  destruct (_handlers w !! index) as [handler|] eqn:Hlook.
  - rewrite (drop_S _ _ _ Hlook) in Hq. cbn [quiet] in Hq.
    destruct Hq as [Hw1 Hq].
    assert (Hn : exists thrown w1,
               Server.call_handler code handler event w = (Normal thrown, w1)).
    { rewrite call_handler_result.
      destruct (code handler event w) as [[[]|error] w1];
        eexists _, _; reflexivity. }
    destruct Hn as (thrown & w1 & E). rewrite E in Hw1, Hq |- *.
    cbn [snd] in Hw1, Hq.
    apply lookup_lt_Some in Hlook as Hlt.
    destruct (IH (S index) w1) as (calls & w' & -> & Hm & Hf & Hw');
      [rewrite Hw1; exact Hq|rewrite Hw1; lia|].
    eexists _, _. split; [reflexivity|]. simpl.
    split; [|split; [constructor; [reflexivity|exact Hf]|congruence]].
    rewrite Hm, Hw1. symmetry. apply drop_S, Hlook.
  - eexists _, _. split; [reflexivity|]. simpl.
    apply lookup_ge_None in Hlook.
    rewrite drop_ge by exact Hlook.
    split; [reflexivity|]. split; [constructor|reflexivity].
Qed.

(** The loop does not take every handler in all cases: when a handler
  removes a listener while the loop runs, the loop reads the array at the
  next index and passes over the handler that has moved into the place of
  the removed one. *)
Lemma self_removing_handler_skips_next :
  ~ (forall (code : HandlerCode) (ctx : RequestContext) (w : World),
        exists fuel calls w',
          Server.dispatch code fuel ctx w = Some (Normal calls, w')
          /\ map inv_handler calls = _handlers w).
Proof.
  intros Hall.
  destruct (Hall one_shot_code ex_context
              (register [3; 4] (mkWorld [] ex_heap [] [])))
    as (fuel & calls & w' & E & Hm).
  destruct fuel as [|[|fuel]]; [discriminate|discriminate|].
  vm_compute in E. injection E as <- <-. discriminate.
Qed.

(** C5. At the failing input the dispatch does not invoke every registered
  handler. Handlers 3 and 4 are registered, in this order, and handler 3
  removes itself when it is called: the dispatch of one exchange completes
  normally having called handler 3 only, and handler 4, registered during
  the whole dispatch, is not called for this exchange. *)
Theorem dispatch_skips_handler_after_removal :
  _handlers (register [3; 4] (mkWorld [] ex_heap [] [])) = [3; 4]
  /\ exists w',
      Server.dispatch one_shot_code 3 ex_context
        (register [3; 4] (mkWorld [] ex_heap [] []))
      = Some (Normal [mkInvocation 3 0 None], w')
      /\ _handlers w' = [4]
      /\ w_console w' = [].
Proof.
  split; [reflexivity|]. eexists. split; [vm_compute; reflexivity|].
  split; reflexivity.
Qed.

(** X23. A dispatch during which no call of a handler changes the array
  of listeners builds one event from the exchange and calls every
  registered handler, in the order of registration, with the reference of
  that event; it completes normally whatever the handlers throw, and
  leaves the listeners as they were. A call of a handler by the loop
  always completes normally: when the handler throws, the error is
  written to the console under the label of the loop and nothing else
  changes. *)
Theorem quiet_dispatch_runs_every_handler
  (code : HandlerCode) (ctx : RequestContext) (w : World) (fuel : nat) :
  length (_handlers w) < fuel ->
  let e := length (w_events w) in
  quiet code e (_handlers w) (snd (Server.new_event ctx w)) ->
  (exists calls w',
      Server.dispatch code fuel ctx w = Some (Normal calls, w')
      /\ fst (Server.new_event ctx w) = Normal e
      /\ map inv_handler calls = _handlers w
      /\ Forall (fun c => inv_event c = e) calls
      /\ _handlers w' = _handlers w)
  /\ (forall handler w0 w1,
        code handler e w0 = (Normal tt, w1) ->
        Server.call_handler code handler e w0 = (Normal None, w1))
  /\ (forall handler w0 error w1,
        code handler e w0 = (Throw error, w1) ->
        Server.call_handler code handler e w0
        = (Normal (Some error),
           mkWorld (w_events w1) (w_heap w1)
             (w_console w1 ++ [("Error in fetch handler:", error)])
             (_handlers w1))).
Proof.
  intros Hfuel e Hq. split; [|split].
  - unfold Server.dispatch.
    destruct (new_event_result ctx w) as (ev & Hnew & _).
    rewrite Hnew in Hq |- *. cbn [snd] in Hq.
    destruct (call_handlers_quiet code fuel 0 e
                (mkWorld (w_events w ++ [ev]) (w_heap w) (w_console w)
                   (_handlers w)))
      as (calls & w' & E & Hm & Hf & Hw'); [exact Hq|simpl; lia|].
    exists calls, w'. split; [exact E|]. split; [reflexivity|].
    split; [exact Hm|]. split; [exact Hf|exact Hw'].
  - intros handler w0 w1 E. rewrite call_handler_result, E. reflexivity.
  - intros handler w0 error w1 E. rewrite call_handler_result, E. reflexivity.
Qed.

Lemma quiet_dispatch_runs_every_handler_witness :
  (exists calls w',
      Server.dispatch ex_code 3 ex_context
        (register [1; 2] (mkWorld [] ex_heap [] []))
      = Some (Normal calls, w')
      /\ map inv_handler calls = [1; 2]
      /\ Forall (fun c => inv_event c = 0) calls)
  /\ (exists calls w',
      Server.dispatch one_shot_code 3 ex_context
        (register [1; 2] (mkWorld [] ex_heap [] []))
      = Some (Normal calls, w')
      /\ map inv_handler calls = [1; 2]).
Proof.
  split.
  - destruct (quiet_dispatch_runs_every_handler ex_code ex_context
                (register [1; 2] (mkWorld [] ex_heap [] [])) 3)
      as [(calls & w' & E & _ & Hm & Hf & _) _];
      [simpl; lia|vm_compute; repeat split|].
    exists calls, w'. split; [exact E|]. split; [exact Hm|exact Hf].
  - destruct (quiet_dispatch_runs_every_handler one_shot_code ex_context
                (register [1; 2] (mkWorld [] ex_heap [] [])) 3)
      as [(calls & w' & E & _ & Hm & _) _];
      [simpl; lia|vm_compute; repeat split|].
    exists calls, w'. split; [exact E|exact Hm].
Defined.

(** ** The unit tests of the repository, replayed *)

Example test_headers_empty :
  Headers.get "content-type" (Headers.new None) = None.
Proof. reflexivity. Qed.

Example test_headers_from_object :
  let headers :=
    Headers.new (Some (Headers.InitRecord
                         [("Content-Type", "application/json");
                          ("X-Custom", "value")])) in
  Headers.get "content-type" headers = Some "application/json"
  /\ Headers.get "x-custom" headers = Some "value".
Proof. split; reflexivity. Qed.

Example test_headers_from_pairs :
  let headers :=
    Headers.new (Some (Headers.InitArray
                         [ItemPair (mkHeaderPair "Content-Type" "text/html");
                          ItemTuple "Cache-Control" "no-cache"])) in
  Headers.get "content-type" headers = Some "text/html"
  /\ Headers.get "cache-control" headers = Some "no-cache".
Proof. split; reflexivity. Qed.

Example test_headers_case_insensitive :
  let headers := Headers.new ex_plain_headers in
  Headers.get "content-type" headers = Some "text/plain"
  /\ Headers.get "Content-Type" headers = Some "text/plain"
  /\ Headers.get "CONTENT-TYPE" headers = Some "text/plain"
  /\ Headers.has "Content-Type" headers = true.
Proof. repeat split; reflexivity. Qed.

Example test_headers_set_overwrites :
  Headers.get "content-type"
    (Headers.set "Content-Type" "application/json" (Headers.new ex_plain_headers))
  = Some "application/json".
Proof. reflexivity. Qed.

Example test_headers_append_new :
  Headers.get "accept" (Headers.append "Accept" "text/html" (Headers.new None))
  = Some "text/html".
Proof. reflexivity. Qed.

Example test_headers_append_existing :
  Headers.get "accept"
    (Headers.append "Accept" "application/json"
       (Headers.new (Some (Headers.InitRecord [("Accept", "text/html")]))))
  = Some "text/html, application/json".
Proof. reflexivity. Qed.

Example test_headers_delete :
  Headers.has "content-type"
    (Headers.delete "content-type" (Headers.new ex_plain_headers)) = false
  /\ Headers.delete "x-not-found" (Headers.new None) = Headers.new None.
Proof. split; reflexivity. Qed.

Example test_headers_toJsHeaders :
  Headers.toJsHeaders (Headers.new ex_plain_headers)
  = [mkHeaderPair "content-type" "text/plain"].
Proof. reflexivity. Qed.

Example test_request_defaults :
  exists r,
    Request.new (Request.InputString "https://example.com/api/users") None []
    = (Normal r, [])
    /\ Request.method r = "GET"
    /\ Request.url r = "https://example.com/api/users"
    /\ Request.bodyUsed r = false
    /\ fst (Request.text (r, [])) = Normal "".
Proof. eexists. split; [reflexivity|]. repeat split; reflexivity. Qed.

Example test_request_text_then_consumed :
  exists r h r',
    Request.new (Request.InputString "https://example.com")
      (Some (Request.mkInit (Some "POST") None (Some (BodyString "test")))) []
    = (Normal r, h)
    /\ Request.text (r, h) = (Normal "test", (r', h))
    /\ Request.bodyUsed r' = true
    /\ fst (Request.text (r', h)) = Throw consumed_error
    /\ fst (Request.clone (r', h)) = Throw request_clone_error
    /\ fst (Request.formData (r, h))
       = Throw (mkError ErrorE "FormData parsing not yet implemented").
Proof.
  eexists _, _, _. split; [reflexivity|]. split; [reflexivity|].
  repeat split; reflexivity.
Qed.

Example test_request_from_request :
  exists original h cloned,
    Request.new (Request.InputString "https://example.com")
      (Some (Request.mkInit (Some "POST")
               (Some (Headers.InitRecord [("X-Test", "value")])) None)) []
    = (Normal original, h)
    /\ Request.new (Request.InputRequest original) None h = (Normal cloned, h)
    /\ Request.method cloned = "POST"
    /\ Request.url cloned = "https://example.com"
    /\ Headers.get "x-test" (Request.headers cloned) = Some "value".
Proof.
  eexists _, _, _. split; [reflexivity|]. split; [reflexivity|].
  repeat split; reflexivity.
Qed.

Example test_response_defaults :
  exists r,
    Response.new None None [] = (Normal r, [])
    /\ Response.status r = 200%Z
    /\ Response.statusText r = "OK"
    /\ Response.ok r = true
    /\ Response._body r = None.
Proof. eexists. split; [reflexivity|]. repeat split; reflexivity. Qed.

Example test_response_ok :
  forall status,
    In status [100; 199; 300; 404; 500]%Z ->
    exists r,
      Response.new None (Some (Response.mkInit (Some status) None None)) []
      = (Normal r, [])
      /\ Response.ok r = false.
Proof.
  intros status Hin. simpl in Hin.
  destruct Hin as [<-|[<-|[<-|[<-|[<-|[]]]]]];
    (eexists; split; [reflexivity|reflexivity]).
Qed.

Example test_response_clone :
  exists r h c,
    Response.new (Some (BodyString "test body"))
      (Some (Response.mkInit (Some 201%Z) None
               (Some (Headers.InitRecord [("X-Test", "value")])))) []
    = (Normal r, h)
    /\ Response.clone (r, h) = (Normal c, (r, h))
    /\ Response.status c = 201%Z
    /\ Headers.get "x-test" (Response.headers c) = Some "value"
    /\ fst (Response.text (c, h)) = Normal "test body".
Proof.
  eexists _, _, _. split; [reflexivity|]. split; [reflexivity|].
  repeat split; reflexivity.
Qed.

Example test_response_json :
  exists r h,
    Response.static_json (H:=JSONRef.builtins)
      (JObject [("error", JString "Not Found")])
      (Some (Response.mkInit (Some 404%Z) None None)) []
    = (Normal r, h)
    /\ Response.status r = 404%Z
    /\ Headers.get "content-type" (Response.headers r) = Some "application/json"
    /\ fst (Response.json (H:=JSONRef.builtins) (r, h))
       = Normal (JObject [("error", JString "Not Found")]).
Proof.
  eexists _, _. split; [reflexivity|]. repeat split; reflexivity.
Qed.

Example test_response_error :
  exists r, Response.error [] = (Normal r, []) /\ Response.status r = 0%Z.
Proof. eexists. split; reflexivity. Qed.

(** [respondWith] with a Response, then with a promise of one: the sink
  is called once with the status of the Response. *)
Example test_respondWith_response :
  forall arg,
    In arg [ArgResponse ex_response; ArgPromise (Fulfilled ex_response)] ->
    FetchEvent.sink_calls
      (FetchEvent.event
         (FetchEvent.run
            [FetchEvent.CallRespondWith arg; FetchEvent.RunReaction]
            (FetchEvent.initial ex_request "127.0.0.1" accepting_sink ex_heap)))
    = [mkSinkCall
         (mkJsResponse 201 [mkHeaderPair "content-type" "text/plain"] (Some 0))
         None].
Proof. intros arg [<-|[<-|[]]]; reflexivity. Qed.

Example test_respondWith_twice :
  exists s1,
    FetchEvent.respondWith (ArgResponse ex_response)
      (FetchEvent.initial ex_request "127.0.0.1" accepting_sink ex_heap)
    = (Normal tt, s1)
    /\ FetchEvent.respondWith (ArgResponse ex_response) s1
       = (Throw (mkError ErrorE "respondWith() has already been called"), s1).
Proof. eexists. split; reflexivity. Qed.

Example test_respondWith_rejection :
  map (fun c => js_status (sc_response c))
    (FetchEvent.sink_calls
       (FetchEvent.event
          (FetchEvent.run
             [FetchEvent.CallRespondWith
                (ArgPromise (Rejected (mkError ErrorE "Something went wrong")));
              FetchEvent.RunReaction]
             (FetchEvent.initial ex_request "127.0.0.1" accepting_sink ex_heap))))
  = [500%Z].
Proof. reflexivity. Qed.

(** A handler that never calls [respondWith]: no reply is sent. *)
Example test_no_response :
  exists calls w',
    Server.dispatch ex_code 2 ex_context (register [7] (mkWorld [] [] [] []))
    = Some (Normal calls, w')
    /\ FetchEvent.sink_calls <$> (w_events w' !! 0) = Some []
    /\ FetchEvent._responded <$> (w_events w' !! 0) = Some false.
Proof. eexists _, _. split; [reflexivity|]. split; reflexivity. Qed.

(** End to end: a handler echoing the request body, an exchange with the
  body [hello]; after the dispatch and one turn of the job queue the sink
  has received status 200 and the body [hello]. *)
Example test_echo_end_to_end :
  exists calls w1 w2 b,
    Server.dispatch echo_code 2 echo_context
      (register [1]
         (mkWorld [] [String.list_byte_of_string "hello"] [] []))
    = Some (Normal calls, w1)
    /\ on_event 0 FetchEvent.run_reaction w1 = (Normal tt, w2)
    /\ FetchEvent.sink_calls <$> (w_events w2 !! 0)
       = Some [mkSinkCall (mkJsResponse 200 [] (Some b)) None]
    /\ Buffer.toString b (w_heap w2) = "hello".
Proof.
  eexists _, _, _, _. split; [vm_compute; reflexivity|].
  split; [vm_compute; reflexivity|]. split; vm_compute; reflexivity.
Qed.
(** * Further properties *)

(** ** Headers: lookup, update and iteration *)

Section MoreMapFacts.

Implicit Types (k v : string) (m : JsMap.t).

Lemma get_delete_ne k k' m :
  k <> k' -> JsMap.get k' (JsMap.delete k m) = JsMap.get k' m.
Proof.
  intros Hne. induction m as [|[k1 v1] m IH]; simpl; [reflexivity|].
  destruct (String.eqb_spec k k1) as [->|Hk]; simpl.
  - destruct (String.eqb_spec k' k1); [congruence|reflexivity].
  - destruct (String.eqb_spec k' k1); [reflexivity|exact IH].
Qed.

Lemma delete_absent k m : k ∉ map fst m -> JsMap.delete k m = m.
Proof.
  induction m as [|[k1 v1] m IH]; simpl; [reflexivity|].
  rewrite not_elem_of_cons. intros [Hne Hn].
  destruct (String.eqb_spec k k1); [contradiction|].
  rewrite IH by exact Hn. reflexivity.
Qed.

Lemma elem_get k v m :
  NoDup (map fst m) -> ((k, v) ∈ m <-> JsMap.get k m = Some v).
Proof.
  induction m as [|[k1 v1] m IH]; simpl.
  - intros _. split; [intros H; apply elem_of_nil in H; contradiction|discriminate].
  - rewrite NoDup_cons. intros [Hn Hnd]. rewrite elem_of_cons.
    destruct (String.eqb_spec k k1) as [->|Hne].
    + split.
      * intros [[= ->]|Hin]; [reflexivity|].
        exfalso. apply Hn. apply (list_elem_of_fmap_2 fst) in Hin. exact Hin.
      * intros [= ->]. left. reflexivity.
    + rewrite <- (IH Hnd). split; [intros [[= -> ->]|H]; [contradiction|exact H]|].
      intros H. right. exact H.
Qed.

Lemma get_fold_set_entry k es m :
  JsMap.get k (fold_left Headers.set_entry es m)
  = fold_left (fun acc kv =>
                 if String.eqb (toLowerCase (fst kv)) k
                 then Some (snd kv) else acc)
              es (JsMap.get k m).
Proof.
  revert m. induction es as [|[k1 v1] es IH]; simpl; intros m; [reflexivity|].
  rewrite IH. f_equal. unfold Headers.set_entry. simpl.
  destruct (String.eqb_spec (toLowerCase k1) k) as [<-|Hne].
  - apply get_set_eq.
  - apply get_set_ne. exact Hne.
Qed.

Lemma string_app_assoc (a b c : string) : (a +:+ b) +:+ c = a +:+ (b +:+ c).
Proof.
  induction a as [|x a IH]; simpl; [reflexivity|].
  apply (f_equal (String x)). exact IH.
Qed.

End MoreMapFacts.

(** X1. [set] then [get], for ASCII names: under any casing of the name
  the value just set is read back and [has] is true; every other name
  reads as before. *)
Theorem headers_set_then_get (n n' v : string) (h : Headers.t) :
  is_ascii n = true ->
  is_ascii n' = true ->
  (toLowerCase n' = toLowerCase n ->
   Headers.get n' (Headers.set n v h) = Some v
   /\ Headers.has n' (Headers.set n v h) = true)
  /\ (toLowerCase n' <> toLowerCase n ->
      Headers.get n' (Headers.set n v h) = Headers.get n' h
      /\ Headers.has n' (Headers.set n v h) = Headers.has n' h).
Proof.
  intros _ _. split; intros E.
  - assert (Hg := get_set_same n n' v h E). split; [exact Hg|].
    unfold Headers.has, JsMap.has. unfold Headers.get in Hg. rewrite Hg.
    reflexivity.
  - assert (Hg := get_set_other n n' v h E). split; [exact Hg|].
    unfold Headers.has, JsMap.has. unfold Headers.get in Hg. rewrite Hg.
    reflexivity.
Qed.

Lemma headers_set_then_get_witness :
  Headers.get "CONTENT-TYPE"
    (Headers.set "Content-Type" "text/html" (Headers.new ex_plain_headers))
  = Some "text/html"
  /\ Headers.get "accept"
       (Headers.set "Content-Type" "text/html" (Headers.new ex_plain_headers))
     = None.
Proof.
  split.
  - apply (headers_set_then_get "Content-Type" "CONTENT-TYPE" "text/html");
      reflexivity.
  - apply (headers_set_then_get "Content-Type" "accept" "text/html"
             (Headers.new ex_plain_headers));
      [reflexivity|reflexivity|discriminate].
Defined.

(** X2. [set] with an ASCII name never reorders: a name that is present
  keeps its place in the iteration order, a new name goes last, in lower
  case. *)
Theorem headers_set_keeps_order (n v : string) (h : Headers.t) :
  is_ascii n = true ->
  (Headers.has n h = true ->
   Headers.keys (Headers.set n v h) = Headers.keys h)
  /\ (Headers.has n h = false ->
      Headers.entries (Headers.set n v h)
      = Headers.entries h ++ [(toLowerCase n, v)]).
Proof.
  intros _.
  unfold Headers.has, JsMap.has, Headers.keys, Headers.entries, Headers.set.
  simpl. destruct (JsMap.get (toLowerCase n) (Headers._headers h)) eqn:Hg.
  - split; [intros _|discriminate].
    apply keys_set_present. eapply get_Some_elem, Hg.
  - split; [discriminate|intros _].
    apply set_fresh. apply get_None_iff, Hg.
Qed.

Lemma headers_set_keeps_order_witness :
  Headers.keys
    (Headers.set "A" "3"
       (Headers.new (Some (Headers.InitRecord [("a", "1"); ("b", "2")]))))
  = ["a"; "b"]
  /\ Headers.entries
       (Headers.set "C" "3"
          (Headers.new (Some (Headers.InitRecord [("a", "1"); ("b", "2")]))))
     = [("a", "1"); ("b", "2"); ("c", "3")].
Proof.
  split.
  - apply (headers_set_keeps_order "A" "3"); reflexivity.
  - apply (headers_set_keeps_order "C" "3"
             (Headers.new (Some (Headers.InitRecord [("a", "1"); ("b", "2")]))));
      reflexivity.
Defined.

(** X3. [delete], for ASCII names: afterwards the name is absent under
  any casing, every other name reads as before, and deleting a name that
  is absent changes nothing. *)
Theorem headers_delete_removes (n n' : string) (h : Headers.t) :
  Headers.wf h ->
  is_ascii n = true ->
  is_ascii n' = true ->
  (toLowerCase n' = toLowerCase n ->
   Headers.get n' (Headers.delete n h) = None
   /\ Headers.has n' (Headers.delete n h) = false)
  /\ (toLowerCase n' <> toLowerCase n ->
      Headers.get n' (Headers.delete n h) = Headers.get n' h)
  /\ (Headers.has n h = false -> Headers.delete n h = h).
Proof.
  intros [_ Hnd] _ _. split; [|split].
  - intros E. unfold Headers.get, Headers.has, JsMap.has, Headers.delete.
    simpl. rewrite E, get_delete_eq by exact Hnd. split; reflexivity.
  - intros E. unfold Headers.get, Headers.delete. simpl.
    apply get_delete_ne. congruence.
  - unfold Headers.has, JsMap.has, Headers.delete.
    destruct (JsMap.get _ _) eqn:Hg; [discriminate|]. intros _.
    destruct h as [m]. simpl in *. f_equal.
    apply delete_absent, get_None_iff, Hg.
Qed.

Lemma headers_delete_removes_witness :
  Headers.has "Content-Type"
    (Headers.delete "content-type" (Headers.new ex_plain_headers)) = false
  /\ Headers.delete "x-not-found" (Headers.new ex_plain_headers)
     = Headers.new ex_plain_headers.
Proof.
  destruct (headers_delete_removes "content-type" "Content-Type"
              (Headers.new ex_plain_headers) (wf_new _) eq_refl eq_refl)
    as [Hd _].
  destruct (headers_delete_removes "x-not-found" "x"
              (Headers.new ex_plain_headers) (wf_new _) eq_refl eq_refl)
    as (_ & _ & Ha).
  split.
  - apply Hd. reflexivity.
  - apply Ha. reflexivity.
Defined.

(** X4. Whatever a Headers object is built from and whatever sequence of
  [set], [append] and [delete] is applied to it, its keys are lower-case
  and pairwise distinct, and so are the names it puts on the wire, which
  are the keys, one header for each. *)
Theorem headers_keys_always_lower_case
  (init : option Headers.Init) (ops : list HeaderOp) :
  let h := apply_ops ops (Headers.new init) in
  Headers.wf h
  /\ Forall lower_case (Headers.keys h)
  /\ NoDup (Headers.keys h)
  /\ map hp_name (Headers.toJsHeaders h) = Headers.keys h
  /\ Forall (fun p => lower_case (hp_name p)) (Headers.toJsHeaders h)
  /\ NoDup (map hp_name (Headers.toJsHeaders h)).
Proof.
  intros h.
  assert (Hwf : Headers.wf h).
  { unfold h, apply_ops. generalize (wf_new init).
    generalize (Headers.new init). induction ops as [|op ops IH]; simpl.
    - auto.
    - intros h0 H0. apply IH. destruct op; simpl;
        [apply wf_set|apply wf_append|apply wf_delete]; exact H0. }
  split; [exact Hwf|]. destruct Hwf as [Hl Hn].
  assert (Hnames : map hp_name (Headers.toJsHeaders h) = Headers.keys h).
  { unfold Headers.toJsHeaders, JsMap.entries, Headers.keys.
    rewrite map_map. reflexivity. }
  split; [|split; [exact Hn|split; [exact Hnames|split]]].
  - unfold Headers.keys. apply Forall_map. exact Hl.
  - unfold Headers.toJsHeaders, JsMap.entries. apply Forall_map. exact Hl.
  - rewrite Hnames. exact Hn.
Qed.

(** X5. The constructor merges its entries with [set]. With ASCII names,
  for every name the value is that of the last entry with this name up to
  case, and a name that no entry has is absent; the entries are those of
  the record (in the order of [Object.entries]), of the array of tuples
  or pairs, or of the Headers object given. *)
Theorem headers_constructor_last_wins (n : string) :
  is_ascii n = true ->
  (forall es,
      ascii_names es ->
      Headers.get n (Headers.new (Some (Headers.InitRecord es)))
      = last_value (toLowerCase n) es)
  /\ (forall items,
      ascii_names (map Headers.item_entry items) ->
      Headers.get n (Headers.new (Some (Headers.InitArray items)))
      = last_value (toLowerCase n) (map Headers.item_entry items))
  /\ (forall h,
      ascii_names (Headers.entries h) ->
      Headers.get n (Headers.new (Some (Headers.InitHeaders h)))
      = last_value (toLowerCase n) (Headers.entries h))
  /\ Headers.get n (Headers.new None) = None.
Proof.
  intros _. unfold Headers.get, last_value. simpl.
  split; [|split; [|split; [|reflexivity]]]; intros x _;
    apply get_fold_set_entry.
Qed.

Lemma headers_constructor_last_wins_witness :
  Headers.get "content-type"
    (Headers.new
       (Some (Headers.InitArray
                [ItemTuple "Content-Type" "text/plain";
                 ItemPair (mkHeaderPair "CONTENT-TYPE" "text/html")])))
  = Some "text/html".
Proof.
  destruct (headers_constructor_last_wins "content-type" eq_refl)
    as (_ & Harray & _).
  rewrite Harray; [reflexivity|].
  repeat constructor.
Defined.

(** X6. The headers of a wire response, read back by the constructor as
  the headers of an exchange are, give the Headers object they came from;
  so do the copy constructor and the constructor on the array of tuples
  that [toArray()] returns. The keys are ASCII. *)
Theorem headers_wire_round_trip (h : Headers.t) :
  Headers.wf h ->
  ascii_names (Headers.entries h) ->
  Headers.new (Some (Headers.InitArray (map ItemPair (Headers.toJsHeaders h))))
  = h
  /\ Headers.new (Some (Headers.InitHeaders h)) = h
  /\ Headers.new (Some (Headers.InitArray (tuples (Headers.toArray h)))) = h.
Proof.
  intros Hwf _. split; [|split].
  - pose proof Hwf as [Hl Hn]. destruct h as [m]. simpl in *. f_equal.
    unfold Headers.toJsHeaders, JsMap.entries. simpl. rewrite !map_map. simpl.
    replace (map (fun x : string * string => (x.1, x.2)) m) with m.
    + apply (fold_set_entry_copy m []); assumption.
    + clear. induction m as [|[k v] m IH]; simpl; [reflexivity|].
      rewrite <- IH. reflexivity.
  - apply new_copy, Hwf.
  - pose proof Hwf as [Hl Hn]. destruct h as [m]. simpl in *. f_equal.
    unfold tuples, JsMap.entries. rewrite map_map. simpl.
    replace (map (fun x : string * string => (x.1, x.2)) m) with m.
    + apply (fold_set_entry_copy m []); assumption.
    + clear. induction m as [|[k v] m IH]; simpl; [reflexivity|].
      rewrite <- IH. reflexivity.
Qed.

Lemma headers_wire_round_trip_witness :
  Headers.new
    (Some (Headers.InitArray
             (map ItemPair
                (Headers.toJsHeaders (Headers.new ex_plain_headers)))))
  = Headers.new ex_plain_headers.
Proof.
  apply (headers_wire_round_trip (Headers.new ex_plain_headers));
    [apply wf_new|repeat constructor].
Defined.

(** X7. Iteration agrees with lookup. Among the ASCII names, the entries
  are exactly the pairs of a lower-case name and the value [get] gives
  for it, and the keys the lower-case names that [has] reports; [keys()],
  [values()] and [entries()] have the same length. *)
Theorem headers_entries_agree_with_get (h : Headers.t) (k v : string) :
  Headers.wf h ->
  is_ascii k = true ->
  ((k, v) ∈ Headers.entries h <-> lower_case k /\ Headers.get k h = Some v)
  /\ (k ∈ Headers.keys h <-> lower_case k /\ Headers.has k h = true)
  /\ length (Headers.keys h) = length (Headers.entries h)
  /\ length (Headers.values h) = length (Headers.entries h).
Proof.
  intros [Hl Hn] _.
  unfold Headers.entries, Headers.keys, Headers.values, JsMap.entries,
    Headers.get, Headers.has, JsMap.has.
  assert (Hlow : forall x, x ∈ map fst (Headers._headers h) -> lower_case x).
  { intros x Hx. apply list_elem_of_fmap in Hx as ([k0 v0] & -> & Hin).
    rewrite Forall_forall in Hl. apply (Hl (k0, v0)). exact Hin. }
  split; [|split; [|split; rewrite length_map; reflexivity]].
  - split.
    + intros Hin. assert (Hk : lower_case k).
      { apply Hlow. apply (list_elem_of_fmap_2 fst) in Hin. exact Hin. }
      split; [exact Hk|]. rewrite Hk. apply elem_get; assumption.
    + intros [Hk Hg]. rewrite Hk in Hg. apply elem_get; assumption.
  - split.
    + intros Hin. pose proof (Hlow k Hin) as Hk. split; [exact Hk|].
      rewrite Hk. destruct (JsMap.get k _) eqn:Hg; [reflexivity|].
      apply get_None_iff in Hg. contradiction.
    + intros [Hk Hh]. rewrite Hk in Hh.
      destruct (JsMap.get k _) eqn:Hg; [|discriminate].
      eapply get_Some_elem, Hg.
Qed.

Lemma headers_entries_agree_with_get_witness :
  ("content-type", "text/plain") ∈ Headers.entries (Headers.new ex_plain_headers).
Proof.
  apply (headers_entries_agree_with_get (Headers.new ex_plain_headers)
           "content-type" "text/plain" (wf_new _) eq_refl).
  split; reflexivity.
Defined.

(** X8. Values appended to a header whose value is not empty accumulate,
  joined by a comma and a space, in the order of the calls. *)
Theorem headers_append_accumulates (n v0 : string) (vs : list string)
  (h : Headers.t) :
  Headers.get n h = Some v0 ->
  v0 <> "" ->
  Headers.get n (fold_left (fun h v => Headers.append n v h) vs h)
  = Some (String.concat ", " (v0 :: vs)).
Proof.
  revert v0 h. induction vs as [|v vs IH]; intros v0 h Hg Hne.
  - exact Hg.
  - cbn [fold_left]. rewrite (append_present n v0 v h Hg Hne).
    rewrite (IH (v0 +:+ ", " +:+ v)).
    + f_equal. destruct vs as [|y l]; [reflexivity|].
      change (String.concat ", " ((v0 +:+ ", " +:+ v) :: y :: l))
        with ((v0 +:+ ", " +:+ v) +:+ ", " +:+ String.concat ", " (y :: l)).
      change (String.concat ", " (v0 :: v :: y :: l))
        with (v0 +:+ ", " +:+ v +:+ ", " +:+ String.concat ", " (y :: l)).
      rewrite string_app_assoc. reflexivity.
    + apply get_set_same. reflexivity.
    + destruct v0; [contradiction|discriminate].
Qed.

Lemma headers_append_accumulates_witness :
  Headers.get "Accept"
    (fold_left (fun h v => Headers.append "ACCEPT" v h)
       ["application/json"; ""; "*/*"]
       (Headers.new (Some (Headers.InitRecord [("Accept", "text/html")]))))
  = Some "text/html, application/json, , */*".
Proof.
  apply (headers_append_accumulates "ACCEPT" "text/html"
           ["application/json"; ""; "*/*"]
           (Headers.new (Some (Headers.InitRecord [("Accept", "text/html")])))).
  - reflexivity.
  - discriminate.
Defined.

(** ** Request and Response: construction and what the accessors return *)

(** X9. A Request built from a Request takes its url, its method unless
  init gives one, its headers unless init gives some, and the very buffer
  of its body, whatever body init gives; nothing is allocated, and the new
  Request is unconsumed even when the one it is built from was consumed,
  so [text()] on it reads that body. *)
Theorem request_from_request
  (input : Request.t) (init : option Request.Init) (h : Heap) :
  exists r,
    Request.new (Request.InputRequest input) init h = (Normal r, h)
    /\ Request.method r = default (Request.method input) (init ≫= Request.i_method)
    /\ Request.url r = Request.url input
    /\ Request._body r = Request._body input
    /\ Request.bodyUsed r = false
    /\ (init ≫= Request.i_headers = None ->
        Headers.wf (Request.headers input) ->
        Request.headers r = Request.headers input)
    /\ (forall hi, init ≫= Request.i_headers = Some hi ->
                   Request.headers r = Headers.new (Some hi))
    /\ Request.text (r, h)
       = (Normal (body_text (Request._body input) h),
          (Request.set_bodyUsed true r, h)).
Proof.
  set (r := Request.mk
              (default (Request.method input) (init ≫= Request.i_method))
              (Request.url input)
              (Headers.new
                 (Some (default (Headers.InitHeaders (Request.headers input))
                                (init ≫= Request.i_headers))))
              (Request._body input) false).
  exists r. split; [reflexivity|].
  split; [reflexivity|]. split; [reflexivity|]. split; [reflexivity|].
  split; [reflexivity|]. split; [|split].
  - intros E Hwf. unfold r. simpl. rewrite E. apply new_copy, Hwf.
  - intros hi E. unfold r. simpl. rewrite E. reflexivity.
  - apply (request_text_fresh r h). reflexivity.
Qed.

Lemma request_from_request_witness :
  exists r,
    Request.new (Request.InputRequest (Request.set_bodyUsed true ex_request))
      (Some (Request.mkInit None None (Some (BodyString "ignored")))) ex_heap
    = (Normal r, ex_heap)
    /\ Request.headers r = Request.headers ex_request
    /\ fst (Request.text (r, ex_heap)) = Normal "{oops".
Proof.
  destruct (request_from_request (Request.set_bodyUsed true ex_request)
              (Some (Request.mkInit None None (Some (BodyString "ignored"))))
              ex_heap)
    as (r & E & _ & _ & _ & _ & Hh & _ & Ht).
  exists r. split; [exact E|]. split.
  - apply Hh; [reflexivity|apply wf_new].
  - rewrite Ht. reflexivity.
Defined.

(** X10. The body that init gives to a Request built from a url: a string
  is read back by [text()] as it is, the empty string leaving the Request
  without a body; a Buffer or a Uint8Array is copied into a new buffer; an
  ArrayBuffer is held as it is; without a body [text()] is the empty
  string. The method is GET unless init gives one. *)
Theorem request_body_from_init
  (u : string) (m : option string) (hd : option Headers.Init) (h : Heap) :
  (forall s,
      exists r h',
        Request.new (Request.InputString u)
          (Some (Request.mkInit m hd (Some (BodyString s)))) h = (Normal r, h')
        /\ fst (Request.text (r, h')) = Normal s
        /\ (s = "" -> Request._body r = None /\ h' = h)
        /\ (s <> "" -> Request._body r = Some (length h))
        /\ Request.method r = default "GET" m
        /\ Request.url r = u
        /\ Request.bodyUsed r = false)
  /\ (forall b body,
      body = BodyBuffer b \/ body = BodyUint8Array b ->
      exists r,
        Request.new (Request.InputString u)
          (Some (Request.mkInit m hd (Some body))) h
        = (Normal r, h ++ [Buffer.read b h])
        /\ Request._body r = Some (length h)
        /\ Buffer.read (length h) (h ++ [Buffer.read b h]) = Buffer.read b h)
  /\ (forall ab,
      exists r,
        Request.new (Request.InputString u)
          (Some (Request.mkInit m hd (Some (BodyArrayBuffer ab)))) h
        = (Normal r, h)
        /\ Request._body r = Some ab)
  /\ (exists r,
      Request.new (Request.InputString u)
        (Some (Request.mkInit m hd None)) h = (Normal r, h)
      /\ Request._body r = None
      /\ fst (Request.text (r, h)) = Normal "").
Proof.
  split; [|split; [|split]].
  - intros s. destruct s as [|c s].
    + eexists _, _. split; [reflexivity|]. simpl.
      repeat (split; [first [reflexivity|intros ?; split; reflexivity
                            |intros Hne; contradiction]|]).
      reflexivity.
    + eexists _, _. split; [reflexivity|].
      rewrite request_text_fresh by reflexivity.
      cbn [Request._body fst body_text Request.method Request.url
           Request.bodyUsed Request._bodyUsed].
      rewrite toString_from_string.
      split; [reflexivity|]. split; [discriminate|].
      split; [reflexivity|]. split; [reflexivity|]. split; reflexivity.
  - intros b body [->| ->];
      (eexists; split; [reflexivity|]; split; [reflexivity|apply read_alloc]).
  - intros ab. eexists. split; reflexivity.
  - eexists. split; [reflexivity|]. split; reflexivity.
Qed.

Lemma request_body_from_init_witness :
  (exists r h',
      Request.new (Request.InputString "https://example.com")
        (Some (Request.mkInit (Some "POST") None (Some (BodyString "")))) ex_heap
      = (Normal r, h')
      /\ Request._body r = None /\ h' = ex_heap)
  /\ (exists r,
      Request.new (Request.InputString "https://example.com")
        (Some (Request.mkInit None None (Some (BodyUint8Array 0)))) ex_heap
      = (Normal r, ex_heap ++ [Buffer.read 0 ex_heap])
      /\ Request._body r = Some 1).
Proof.
  destruct (request_body_from_init "https://example.com" (Some "POST") None
              ex_heap) as [Hs _].
  destruct (request_body_from_init "https://example.com" None None ex_heap)
    as (_ & Hb & _).
  split.
  - destruct (Hs "") as (r & h' & E & _ & Hempty & _).
    exists r, h'. split; [exact E|]. apply Hempty. reflexivity.
  - destruct (Hb 0 (BodyUint8Array 0)) as (r & E & Hl & _);
      [right; reflexivity|].
    exists r. split; [exact E|exact Hl].
Defined.

(** X11. The body given to the Response constructor: a string, the empty
  one included, gets a buffer of its own and is read back by [text()] as
  it is; a Buffer or an ArrayBuffer is held as it is, without a copy; a
  Uint8Array is copied, so a later write into it does not reach the
  Response; without a body [text()] is the empty string. Whatever the
  body, the status is 200 and the status text OK unless init gives them,
  and the headers satisfy the invariant. *)
Theorem response_body_from_init (init : option Response.Init) (h : Heap) :
  (forall body,
      exists r h',
        Response.new body init h = (Normal r, h')
        /\ Response.status r = default 200%Z (init ≫= Response.i_status)
        /\ Response.statusText r = default "OK" (init ≫= Response.i_statusText)
        /\ Response.headers r = Headers.new (init ≫= Response.i_headers)
        /\ Headers.wf (Response.headers r)
        /\ Response.bodyUsed r = false)
  /\ (forall s,
      exists r,
        Response.new (Some (BodyString s)) init h
        = (Normal r, h ++ [String.list_byte_of_string s])
        /\ Response._body r = Some (length h)
        /\ fst (Response.text (r, h ++ [String.list_byte_of_string s]))
           = Normal s)
  /\ (forall b body,
      body = BodyBuffer b \/ body = BodyArrayBuffer b ->
      exists r,
        Response.new (Some body) init h = (Normal r, h)
        /\ Response._body r = Some b)
  /\ (forall a,
      exists r,
        Response.new (Some (BodyUint8Array a)) init h
        = (Normal r, h ++ [Buffer.read a h])
        /\ Response._body r = Some (length h)
        /\ body_bytes (Response._body r) (h ++ [Buffer.read a h])
           = Buffer.read a h
        /\ (a < length h ->
            forall i x,
              body_bytes (Response._body r)
                (Buffer.write a i x (h ++ [Buffer.read a h]))
              = Buffer.read a h))
  /\ (exists r,
      Response.new None init h = (Normal r, h)
      /\ Response._body r = None
      /\ fst (Response.text (r, h)) = Normal "").
Proof.
  split; [|split; [|split; [|split]]].
  - intros [[s|b|ab|a]|]; (eexists _, _; split; [reflexivity|]; simpl;
      repeat (split; [first [reflexivity|apply wf_new]|]); reflexivity).
  - intros s. eexists. split; [reflexivity|].
    split; [reflexivity|].
    rewrite response_text_fresh by reflexivity. simpl.
    rewrite toString_from_string. reflexivity.
  - intros b body [->| ->]; (eexists; split; reflexivity).
  - intros a. eexists. split; [reflexivity|]. simpl.
    split; [reflexivity|]. split; [apply read_alloc|].
    intros Hlt i x. rewrite read_write_ne by lia. apply read_alloc.
  - eexists. split; [reflexivity|]. split; reflexivity.
Qed.

Lemma response_body_from_init_witness :
  (exists r,
      Response.new (Some (BodyBuffer 0)) None ex_heap = (Normal r, ex_heap)
      /\ Response._body r = Some 0)
  /\ (exists r,
      Response.new (Some (BodyUint8Array 0)) None ex_heap
      = (Normal r, ex_heap ++ [Buffer.read 0 ex_heap])
      /\ body_bytes (Response._body r)
           (Buffer.write 0 0 x48 (ex_heap ++ [Buffer.read 0 ex_heap]))
         = Buffer.read 0 ex_heap).
Proof.
  destruct (response_body_from_init None ex_heap) as (_ & _ & Hb & Hu & _).
  split.
  - destruct (Hb 0 (BodyBuffer 0)) as (r & E & Hl); [left; reflexivity|].
    exists r. split; [exact E|exact Hl].
  - destruct (Hu 0) as (r & E & _ & _ & Hi).
    exists r. split; [exact E|]. apply Hi. simpl. lia.
Defined.

(** X12. What the accessors return on an unconsumed message, which each
  of them marks as consumed: [text()] a text, which for a body of valid
  UTF-8 is the text these bytes encode, [blob()] the bytes,
  [arrayBuffer()] a new buffer holding a copy of them, into which a write
  does not reach the body of the message; without a body they are the
  empty text, no bytes and an empty buffer. *)
Theorem accessors_return_the_body :
  (forall (r : Response.t) (h : Heap),
      Response.bodyUsed r = false ->
      let bytes := body_bytes (Response._body r) h in
      let r' := Response.set_bodyUsed true r in
      (exists text, Response.text (r, h) = (Normal text, (r', h)))
      /\ (valid_utf8 bytes = true ->
          Response.text (r, h)
          = (Normal (String.string_of_list_byte bytes), (r', h)))
      /\ Response.blob (r, h) = (Normal bytes, (r', h))
      /\ Response.arrayBuffer (r, h) = (Normal (length h), (r', h ++ [bytes]))
      /\ Buffer.read (length h) (h ++ [bytes]) = bytes
      /\ (forall b i x,
            Response._body r = Some b -> b < length h ->
            body_bytes (Response._body r')
              (Buffer.write (length h) i x (h ++ [bytes]))
            = bytes))
  /\ (forall (r : Request.t) (h : Heap),
      Request.bodyUsed r = false ->
      let bytes := body_bytes (Request._body r) h in
      let r' := Request.set_bodyUsed true r in
      (exists text, Request.text (r, h) = (Normal text, (r', h)))
      /\ (valid_utf8 bytes = true ->
          Request.text (r, h)
          = (Normal (String.string_of_list_byte bytes), (r', h)))
      /\ Request.blob (r, h) = (Normal bytes, (r', h))
      /\ Request.arrayBuffer (r, h) = (Normal (length h), (r', h ++ [bytes]))
      /\ Buffer.read (length h) (h ++ [bytes]) = bytes
      /\ (forall b i x,
            Request._body r = Some b -> b < length h ->
            body_bytes (Request._body r')
              (Buffer.write (length h) i x (h ++ [bytes]))
            = bytes)).
Proof.
  split.
  - intros r h Hu bytes r'. unfold Response.bodyUsed in Hu.
    split; [|split; [|split; [|split; [|split]]]].
    + rewrite response_text_fresh by exact Hu. eexists. reflexivity.
    + intros _. rewrite response_text_fresh by exact Hu.
      destruct r as [? ? ? [b|] ?]; reflexivity.
    + destruct r as [? ? ? [b|] ?]; simpl in *; subst; reflexivity.
    + destruct r as [? ? ? [b|] ?]; simpl in *; subst; reflexivity.
    + apply read_alloc.
    + intros b i x Hb Hlt. unfold r'. destruct r as [? ? ? body ?].
      simpl in *. subst body. unfold bytes. simpl.
      rewrite read_write_ne by lia.
      unfold Buffer.read. rewrite lookup_app_l by exact Hlt. reflexivity.
  - intros r h Hu bytes r'. unfold Request.bodyUsed in Hu.
    split; [|split; [|split; [|split; [|split]]]].
    + rewrite request_text_fresh by exact Hu. eexists. reflexivity.
    + intros _. rewrite request_text_fresh by exact Hu.
      destruct r as [? ? ? [b|] ?]; reflexivity.
    + destruct r as [? ? ? [b|] ?]; simpl in *; subst; reflexivity.
    + destruct r as [? ? ? [b|] ?]; simpl in *; subst; reflexivity.
    + apply read_alloc.
    + intros b i x Hb Hlt. unfold r'. destruct r as [? ? ? body ?].
      simpl in *. subst body. unfold bytes. simpl.
      rewrite read_write_ne by lia.
      unfold Buffer.read. rewrite lookup_app_l by exact Hlt. reflexivity.
Qed.

Lemma accessors_return_the_body_witness :
  Response.arrayBuffer (ex_response, ex_heap)
  = (Normal 1,
     (Response.set_bodyUsed true ex_response,
      ex_heap ++ [Buffer.read 0 ex_heap]))
  /\ fst (Request.text (ex_request, ex_heap)) = Normal "{oops".
Proof.
  destruct accessors_return_the_body as [Hres Hreq].
  split.
  - apply (Hres ex_response ex_heap). reflexivity.
  - destruct (Hreq ex_request ex_heap eq_refl) as (_ & Ht & _).
    rewrite Ht; reflexivity.
Defined.

(** X13. [Response.json(data, init)] keeps what init gives besides the
  content type: the status, the status text, and every header under
  another name; when [JSON.stringify] throws, the exception comes out of
  [Response.json] and nothing is allocated. *)
Theorem response_json_keeps_init `{JSONBuiltins}
  (data : JsValue) (init : option Response.Init) (h : Heap) :
  (forall body,
      JSON_stringify data = Normal body ->
      exists r h',
        Response.static_json data init h = (Normal r, h')
        /\ Response.status r = default 200%Z (init ≫= Response.i_status)
        /\ Response.statusText r
           = default "OK" (init ≫= Response.i_statusText)
        /\ (forall n,
              toLowerCase n <> "content-type" ->
              Headers.get n (Response.headers r)
              = Headers.get n (Headers.new (init ≫= Response.i_headers))))
  /\ (forall e,
      JSON_stringify data = Throw e ->
      Response.static_json data init h = (Throw e, h)).
Proof.
  split.
  - intros body Hs. rewrite (static_json_result _ _ _ _ Hs).
    set (hd := Headers.set "content-type" "application/json"
                 (Headers.new (init ≫= Response.i_headers))).
    assert (Hc : Headers.new (Some (Headers.InitHeaders hd)) = hd)
      by apply new_copy, wf_set, wf_new.
    destruct body as [s|]; simpl fmap;
      [rewrite response_new_string|rewrite response_new_null];
      rewrite Hc; (eexists _, _; split; [reflexivity|]);
      (split; [reflexivity|]); (split; [reflexivity|]);
      intros n Hn; apply get_set_other; exact Hn.
  - intros e Hs. unfold Response.static_json. rewrite Hs. reflexivity.
Qed.

Lemma response_json_keeps_init_witness :
  exists r h',
    Response.static_json (H:=JSONRef.builtins) (JNumber 1)
      (Some (Response.mkInit (Some 201%Z) None
               (Some (Headers.InitRecord [("X-Test", "value")])))) []
    = (Normal r, h')
    /\ Headers.get "x-test" (Response.headers r) = Some "value".
Proof.
  destruct (@response_json_keeps_init JSONRef.builtins (JNumber 1)
              (Some (Response.mkInit (Some 201%Z) None
                       (Some (Headers.InitRecord [("X-Test", "value")])))) [])
    as [Hok _].
  destruct (Hok (JSONRef.stringify_value (JNumber 1)) eq_refl)
    as (r & h' & E & _ & _ & Hh).
  exists r, h'. split; [exact E|].
  rewrite (Hh "x-test") by discriminate. reflexivity.
Defined.

(** ** FetchEvent: the success path, the order of responses, waitUntil *)

Section MoreEventFacts.

Import FetchEvent.

Implicit Types (s : State).

(** Nothing more happens to an event that has been responded to and has
  no chain left to run. *)
Lemma run_settled acts s :
  _responded (event s) = true -> reactions (event s) = [] -> run acts s = s.
Proof.
  intros Hr Hx. induction acts as [|a acts IH]; simpl; [reflexivity|].
  destruct a as [response|]; simpl.
  - rewrite respondWith_again by exact Hr. exact IH.
  - unfold run_reaction. rewrite Hx. exact IH.
Qed.

Lemma run_reaction_pending p s :
  reactions (event s) = [p] -> sink_calls (event s) = [] ->
  _responded (event s) = true ->
  (settled p = false -> run_reaction s = (Normal tt, s))
  /\ (settled p = true ->
      fst (run_reaction s) = Normal tt
      /\ _responded (event (snd (run_reaction s))) = true
      /\ reactions (event (snd (run_reaction s))) = []).
Proof.
  intros Hx Hc Hr. unfold run_reaction. rewrite Hx. split.
  - destruct p; [discriminate|discriminate|reflexivity].
  - intros Hp.
    assert (Hch : forall s0,
               sink_calls (event s0) = [] ->
               exists s' sent,
                 chain p (s0, false) = (Normal tt, (s', sent))
                 /\ _responded (event s') = _responded (event s0)
                 /\ reactions (event s') = reactions (event s0)).
    { intros s0 H0. destruct (chain_effect p s0 H0)
        as (s' & sent & E & H1 & _ & H2 & _). eauto. }
    destruct p as [res|e|]; [| |discriminate].
    + match goal with
      | |- context [chain ?q (?s0, false)] =>
          destruct (Hch s0 Hc) as (s' & sent & -> & H1 & H2)
      end.
      simpl in *. repeat split; congruence.
    + match goal with
      | |- context [chain ?q (?s0, false)] =>
          destruct (Hch s0 Hc) as (s' & sent & -> & H1 & H2)
      end.
      simpl in *. repeat split; congruence.
Qed.

(** After the first [respondWith], the state is that call's or the one
  its chain leaves, whatever follows. *)
Lemma run_after_first p acts s :
  reactions (event s) = [p] -> sink_calls (event s) = [] ->
  _responded (event s) = true ->
  run acts s
  = if (settled p && existsb is_tick acts)%bool
    then snd (run_reaction s) else s.
Proof.
  intros Hx Hc Hr. induction acts as [|a acts IH]; simpl.
  - rewrite andb_false_r. reflexivity.
  - destruct a as [response|]; simpl.
    + rewrite respondWith_again by exact Hr. exact IH.
    + destruct (run_reaction_pending p s Hx Hc Hr) as [Hun Hse].
      destruct (settled p) eqn:Hp; simpl.
      * destruct (Hse eq_refl) as (_ & Hr' & Hx').
        apply run_settled; assumption.
      * rewrite (Hun eq_refl). simpl. rewrite IH. reflexivity.
Qed.

Lemma run_without_respondWith acts s :
  reactions (event s) = [] -> existsb is_respond acts = false ->
  run acts s = s.
Proof.
  intros Hx. induction acts as [|a acts IH]; simpl; [reflexivity|].
  destruct a as [response|]; simpl; [discriminate|].
  unfold run_reaction. rewrite Hx. exact IH.
Qed.

(** [waitUntil] and the other actions do not interfere. *)
Lemma with_promises_same s :
  with_promises (_waitUntilPromises (event s)) s = s.
Proof. destruct s as [[] ? ?]. reflexivity. Qed.

Lemma step_with_promises ps a s :
  step a (with_promises ps s)
  = (fst (step a s), with_promises ps (snd (step a s))).
Proof.
  destruct s as [[rq ad rs cb wu calls rx] h c].
  destruct a as [response|]; simpl.
  - unfold respondWith, with_promises. simpl. destruct rs; reflexivity.
  - unfold run_reaction, with_promises. simpl.
    destruct rx as [|[res|e|] rest]; simpl; try reflexivity.
    + unfold try_catch. rewrite !then_callback_spec. cbv zeta. simpl.
      destruct (cb calls _) as [err|]; [|reflexivity].
      rewrite !catch_callback_unsent. reflexivity.
    + rewrite !catch_callback_unsent. reflexivity.
Qed.

Lemma run_with_promises ps acts s :
  run acts (with_promises ps s) = with_promises ps (run acts s).
Proof.
  revert s. induction acts as [|a acts IH]; simpl; intros s; [reflexivity|].
  rewrite step_with_promises. simpl. apply IH.
Qed.

Lemma step_keeps_promises a s :
  _waitUntilPromises (event (snd (step a s))) = _waitUntilPromises (event s).
Proof.
  pose proof (step_with_promises (_waitUntilPromises (event s)) a s) as E.
  rewrite with_promises_same in E.
  assert (E' : snd (step a s)
               = with_promises (_waitUntilPromises (event s)) (snd (step a s))).
  { rewrite E at 1. reflexivity. }
  rewrite E'. reflexivity.
Qed.

End MoreEventFacts.

(** X14. The success path. On an event not yet responded to, [respondWith]
  with a Response, or a promise fulfilled with one, makes the chain invoke
  the reply sink with the wire form of that Response. If the sink returns,
  that is its only invocation and nothing else changes. If it throws, the
  chain invokes it once more, with status 500 and the message of what it
  threw, and logs what that second invocation throws; the chain completes
  normally in both cases. *)
Theorem fulfilled_promise_sends_response
  (request : Request.t) (addr : string) (sink : Sink) (h0 : Heap)
  (acts : list FetchEvent.Action) (arg : RespondArg) (res : Response.t) :
  let s := FetchEvent.run acts (FetchEvent.initial request addr sink h0) in
  FetchEvent._responded (FetchEvent.event s) = false ->
  Promise_resolve arg = Fulfilled res ->
  exists s1 s2,
    FetchEvent.respondWith arg s = (Normal tt, s1)
    /\ FetchEvent.run_reaction s1 = (Normal tt, s2)
    /\ (sink [] (wire res) = None ->
        FetchEvent.sink_calls (FetchEvent.event s2)
        = [mkSinkCall (wire res) None]
        /\ FetchEvent.heap s2 = FetchEvent.heap s
        /\ FetchEvent.console s2 = FetchEvent.console s)
    /\ (forall e,
          sink [] (wire res) = Some e ->
          let b := length (FetchEvent.heap s) in
          let first := mkSinkCall (wire res) (Some e) in
          let thrown := sink [first] (mkJsResponse 500 [] (Some b)) in
          FetchEvent.sink_calls (FetchEvent.event s2)
          = [first; mkSinkCall (mkJsResponse 500 [] (Some b)) thrown]
          /\ Buffer.toString b (FetchEvent.heap s2)
             = "Internal Server Error: " +:+ emessage e
          /\ FetchEvent.console s2
             = FetchEvent.console s ++ send_failure_log thrown).
Proof.
  intros s Hr Hp.
  assert (Hinv : event_inv sink (FetchEvent.event s))
    by apply event_inv_run, event_inv_new.
  destruct Hinv as (Hcb & Hfresh & _ & _).
  destruct (Hfresh Hr) as [Hnil Hnone].
  unfold FetchEvent.respondWith. rewrite Hr, Hnil, Hp. simpl.
  destruct (sink [] (wire res)) as [e|] eqn:Hs.
  - eexists _, _. split; [reflexivity|].
    unfold FetchEvent.run_reaction. simpl.
    unfold try_catch. rewrite then_callback_spec. cbv zeta. simpl.
    rewrite Hnone, Hcb. fold (wire res). rewrite Hs.
    rewrite catch_callback_unsent. cbv zeta. simpl.
    split; [reflexivity|]. split; [discriminate|].
    intros e' [= <-]. simpl.
    split; [reflexivity|]. split; [apply toString_from_string|reflexivity].
  - eexists _, _. split; [reflexivity|].
    unfold FetchEvent.run_reaction. simpl.
    unfold try_catch. rewrite then_callback_spec. cbv zeta. simpl.
    rewrite Hnone, Hcb. fold (wire res). rewrite Hs.
    split; [reflexivity|]. split; [|discriminate].
    intros _. simpl. repeat split; reflexivity.
Qed.

Lemma fulfilled_promise_sends_response_witness :
  exists s1 s2,
    FetchEvent.respondWith (ArgPromise (Fulfilled ex_response))
      (FetchEvent.initial ex_request "127.0.0.1" accepting_sink ex_heap)
    = (Normal tt, s1)
    /\ FetchEvent.run_reaction s1 = (Normal tt, s2)
    /\ FetchEvent.sink_calls (FetchEvent.event s2)
       = [mkSinkCall (wire ex_response) None].
Proof.
  destruct (fulfilled_promise_sends_response ex_request "127.0.0.1"
              accepting_sink ex_heap [] (ArgPromise (Fulfilled ex_response))
              ex_response eq_refl eq_refl)
    as (s1 & s2 & E1 & E2 & Hok & _).
  exists s1, s2. split; [exact E1|]. split; [exact E2|].
  apply Hok. reflexivity.
Defined.

(** X15. The first response wins. After a first [respondWith] on a new
  event, whatever calls of [respondWith] and turns of the job queue
  follow, the event is in the state that call left, or, once a turn of the
  queue has come after the promise settled, in the state the chain of that
  first call leaves: no later call changes what is sent. *)
Theorem first_response_wins
  (request : Request.t) (addr : string) (sink : Sink) (h0 : Heap)
  (arg : RespondArg) (acts : list FetchEvent.Action) :
  let init := FetchEvent.initial request addr sink h0 in
  let s1 := snd (FetchEvent.respondWith arg init) in
  FetchEvent.run (FetchEvent.CallRespondWith arg :: acts) init
  = if (settled (Promise_resolve arg) && existsb is_tick acts)%bool
    then snd (FetchEvent.run_reaction s1)
    else s1.
Proof.
  intros init s1. simpl FetchEvent.run.
  change (fold_left _ acts ?x) with (FetchEvent.run acts x).
  apply run_after_first; reflexivity.
Qed.

(** X16. No reply without a settled response: on a new event, turns of
  the job queue alone change nothing, and after [respondWith] with a
  promise that never settles the reply sink is never invoked, whatever
  follows. *)
Theorem no_reply_without_settled_response
  (request : Request.t) (addr : string) (sink : Sink) (h0 : Heap)
  (acts : list FetchEvent.Action) :
  let init := FetchEvent.initial request addr sink h0 in
  (existsb is_respond acts = false -> FetchEvent.run acts init = init)
  /\ FetchEvent.sink_calls
       (FetchEvent.event
          (FetchEvent.run
             (FetchEvent.CallRespondWith (ArgPromise Unsettled) :: acts) init))
     = [].
Proof.
  intros init. split.
  - intros Hno. apply run_without_respondWith; [reflexivity|exact Hno].
  - simpl FetchEvent.run.
    change (fold_left _ acts ?x) with (FetchEvent.run acts x).
    rewrite (run_after_first Unsettled) by reflexivity. reflexivity.
Qed.

Lemma no_reply_without_settled_response_witness :
  FetchEvent.run [FetchEvent.RunReaction; FetchEvent.RunReaction]
    (FetchEvent.initial ex_request "127.0.0.1" broken_sink ex_heap)
  = FetchEvent.initial ex_request "127.0.0.1" broken_sink ex_heap.
Proof.
  apply (no_reply_without_settled_response ex_request "127.0.0.1" broken_sink
           ex_heap [FetchEvent.RunReaction; FetchEvent.RunReaction]).
  reflexivity.
Defined.

(** X17. [waitUntil] only records. It never throws, before or after
  [respondWith]; after any sequence of calls of [waitUntil], calls of
  [respondWith] and turns of the job queue, the event is as the other
  actions alone leave it, with the promises given to [waitUntil] added to
  its list in the order of the calls. *)
Theorem waitUntil_only_records (ops : list EventOp) (s : FetchEvent.State) :
  run_ops ops s
  = with_promises
      (FetchEvent._getWaitUntilPromises (FetchEvent.event s) ++ promises_of ops)
      (FetchEvent.run (actions_of ops) s)
  /\ (forall promise, fst (FetchEvent.waitUntil promise s) = Normal tt).
Proof.
  split; [|reflexivity].
  unfold FetchEvent._getWaitUntilPromises.
  revert s. induction ops as [|o ops IH]; intros s.
  - simpl. rewrite app_nil_r. symmetry. apply with_promises_same.
  - destruct o as [a|promise].
    + change (run_ops (OpAction a :: ops) s)
        with (run_ops ops (snd (FetchEvent.step a s))).
      rewrite IH, step_keeps_promises. reflexivity.
    + change (run_ops (OpWaitUntil promise :: ops) s)
        with (run_ops ops
                (with_promises
                   (FetchEvent._waitUntilPromises (FetchEvent.event s)
                    ++ [promise]) s)).
      rewrite IH. simpl. rewrite run_with_promises.
      rewrite <- app_assoc. destruct (FetchEvent.run _ s) as [[] ? ?].
      reflexivity.
Qed.

(** X18. The event built from an exchange: the method, the url and the
  peer address of the exchange; for every name, the header that the last
  entry of the exchange gives it, up to case, the names being ASCII as
  the transport delivers them; the very buffer of the
  exchange as body, without a copy or an allocation; not consumed, not
  responded to, no background promise, and the [respond] function of the
  exchange as reply sink. *)
Theorem event_from_context (ctx : RequestContext) (h : Heap) :
  exists ev,
    FetchEvent._fromContext ctx h = (Normal ev, h)
    /\ Request._fromContext ctx h = (Normal (FetchEvent.request ev), h)
    /\ Request.method (FetchEvent.request ev) = ctx_method ctx
    /\ Request.url (FetchEvent.request ev) = ctx_url ctx
    /\ (forall n,
          is_ascii n = true ->
          ascii_names (map pair_entry (ctx_headers ctx)) ->
          Headers.get n (Request.headers (FetchEvent.request ev))
          = last_value (toLowerCase n) (map pair_entry (ctx_headers ctx)))
    /\ Headers.wf (Request.headers (FetchEvent.request ev))
    /\ Request._body (FetchEvent.request ev) = ctx_body ctx
    /\ Request.bodyUsed (FetchEvent.request ev) = false
    /\ FetchEvent.clientAddress ev = ctx_clientAddress ctx
    /\ FetchEvent._responded ev = false
    /\ FetchEvent._respondCallback ev = ctx_respond ctx
    /\ FetchEvent._getWaitUntilPromises ev = [].
Proof.
  eexists. split; [apply fromContext_result|]. simpl.
  split; [reflexivity|]. split; [reflexivity|]. split; [reflexivity|].
  split; [|split; [apply (wf_new (Some (Headers.InitArray _)))
                  |repeat split; reflexivity]].
  intros n _ _. unfold Headers.get, last_value. simpl.
  rewrite get_fold_set_entry. rewrite map_map. reflexivity.
Qed.

Lemma event_from_context_witness :
  exists ev,
    FetchEvent._fromContext echo_context ex_heap = (Normal ev, ex_heap)
    /\ Headers.get "Content-Type" (Request.headers (FetchEvent.request ev))
       = Some "text/plain".
Proof.
  destruct (event_from_context echo_context ex_heap)
    as (ev & E & _ & _ & _ & Hget & _).
  exists ev. split; [exact E|].
  rewrite Hget; [reflexivity|reflexivity|repeat constructor].
Defined.

(** ** Server: the listeners *)

Section ListenerFacts.

Lemma indexOf_absent handler l :
  handler ∉ l -> Server.indexOf handler l = None.
Proof.
  induction l as [|x l IH]; simpl; [reflexivity|].
  rewrite not_elem_of_cons. intros [Hne Hn].
  destruct (Nat.eqb_spec x handler); [congruence|].
  rewrite IH by exact Hn. reflexivity.
Qed.

Lemma indexOf_first handler l1 l2 :
  handler ∉ l1 ->
  Server.indexOf handler (l1 ++ handler :: l2) = Some (length l1).
Proof.
  induction l1 as [|x l1 IH]; simpl.
  - intros _. rewrite Nat.eqb_refl. reflexivity.
  - rewrite not_elem_of_cons. intros [Hne Hn].
    destruct (Nat.eqb_spec x handler); [congruence|].
    rewrite IH by exact Hn. reflexivity.
Qed.

Lemma delete_middle {A} (l1 l2 : list A) x :
  delete (length l1) (l1 ++ x :: l2) = l1 ++ l2.
Proof. induction l1 as [|y l1 IH]; simpl; [reflexivity|]. f_equal. exact IH. Qed.

Lemma fetch_only event :
  event <> "fetch" -> negb (String.eqb event "fetch") = true.
Proof.
  intros Hne. destruct (String.eqb_spec event "fetch"); [contradiction|].
  reflexivity.
Qed.

End ListenerFacts.

(** X19. Listeners. For an event name other than [fetch] both
  [addEventListener] and [removeEventListener] throw and change nothing.
  [addEventListener] puts the handler last, also when it is registered
  already; [removeEventListener] takes out the first occurrence of the
  handler and no other, does nothing for a handler that is not
  registered, and undoes the registration of a handler that was not there
  before. *)
Theorem listeners_add_and_remove (handler : nat) (w : World) :
  (forall event,
      event <> "fetch" ->
      Server.addEventListener event handler w
      = (Throw (mkError ErrorE ("Unknown event type: " +:+ event)), w)
      /\ Server.removeEventListener event handler w
         = (Throw (mkError ErrorE ("Unknown event type: " +:+ event)), w))
  /\ Server.addEventListener "fetch" handler w
     = (Normal tt, Server.set_handlers (_handlers w ++ [handler]) w)
  /\ (handler ∉ _handlers w ->
      Server.removeEventListener "fetch" handler w = (Normal tt, w)
      /\ Server.removeEventListener "fetch" handler
           (snd (Server.addEventListener "fetch" handler w))
         = (Normal tt, w))
  /\ (forall l1 l2,
        _handlers w = l1 ++ handler :: l2 ->
        handler ∉ l1 ->
        Server.removeEventListener "fetch" handler w
        = (Normal tt, Server.set_handlers (l1 ++ l2) w)).
Proof.
  split; [|split; [|split]].
  - intros event Hne.
    unfold Server.addEventListener, Server.removeEventListener.
    rewrite (fetch_only event Hne). split; reflexivity.
  - reflexivity.
  - intros Hn. split.
    + unfold Server.removeEventListener, modify. simpl.
      rewrite indexOf_absent by exact Hn. reflexivity.
    + unfold Server.removeEventListener, Server.addEventListener, modify.
      simpl. rewrite indexOf_first by exact Hn. rewrite delete_middle.
      rewrite app_nil_r. destruct w. reflexivity.
  - intros l1 l2 Hl Hn. unfold Server.removeEventListener, modify. simpl.
    rewrite Hl, indexOf_first by exact Hn. rewrite delete_middle. reflexivity.
Qed.

Lemma listeners_add_and_remove_witness :
  Server.removeEventListener "fetch" 7 (register [7; 8; 7] (mkWorld [] [] [] []))
  = (Normal tt, register [8; 7] (mkWorld [] [] [] []))
  /\ fst (Server.addEventListener "request" 7 (mkWorld [] [] [] []))
     = Throw (mkError ErrorE "Unknown event type: request").
Proof.
  destruct (listeners_add_and_remove 7 (register [7; 8; 7] (mkWorld [] [] [] [])))
    as (_ & _ & _ & Hfirst).
  destruct (listeners_add_and_remove 7 (mkWorld [] [] [] [])) as (Hname & _).
  split.
  - apply (Hfirst [] [8; 7]); [reflexivity|apply not_elem_of_nil].
  - destruct (Hname "request") as [E _]; [discriminate|].
    rewrite E. reflexivity.
Defined.

(** ** Server: several handlers that respond *)

Section ResponderFacts.

Variable answers : nat -> Response.t.

Lemma responder_again handler e w ev :
  w_events w !! e = Some ev ->
  FetchEvent._responded ev = true ->
  responders answers handler e w = (Throw already_responded, w).
Proof.
  intros He Hr. unfold responders, on_event. rewrite He.
  unfold FetchEvent.respondWith. simpl. rewrite Hr.
  rewrite list_insert_id by exact He. destruct w. reflexivity.
Qed.

(** Once the event has been responded to, every handler of the rest of
  the list throws, and each exception goes to the console. *)
Lemma call_responders_again fuel index e w ev :
  w_events w !! e = Some ev ->
  FetchEvent._responded ev = true ->
  length (_handlers w) - index < fuel ->
  Server.call_handlers (responders answers) fuel index e w
  = Some (Normal (map (fun f => mkInvocation f e (Some already_responded))
                      (drop index (_handlers w))),
          mkWorld (w_events w) (w_heap w)
            (w_console w
             ++ map (fun _ => ("Error in fetch handler:", already_responded))
                    (drop index (_handlers w)))
            (_handlers w)).
Proof.
  revert index w. induction fuel as [|fuel IH]; intros index w He Hr Hf; [lia|].
  simpl. destruct (_handlers w !! index) as [handler|] eqn:Hlook.
  - rewrite call_handler_result, (responder_again handler e w ev He Hr).
    apply lookup_lt_Some in Hlook as Hlt.
    rewrite IH; [|exact He|exact Hr|simpl; lia]. simpl.
    rewrite (drop_S _ _ _ Hlook). simpl. rewrite <- app_assoc. reflexivity.
  - apply lookup_ge_None in Hlook. rewrite drop_ge by exact Hlook.
    simpl. rewrite app_nil_r. destruct w. reflexivity.
Qed.

End ResponderFacts.

(** X20. Several handlers that respond. When every registered handler
  calls [respondWith], the dispatch completes normally; the call of the
  first handler succeeds and registers its response; the call of every
  later handler ends in the already-responded error, which the loop
  catches and writes to the console; the reply sink is not invoked during
  the dispatch. *)
Theorem first_responder_wins
  (answers : nat -> Response.t) (first : nat) (rest : list nat)
  (ctx : RequestContext) (w : World) (fuel : nat) :
  _handlers w = first :: rest ->
  length (first :: rest) < fuel ->
  let e := length (w_events w) in
  exists ev,
    Server.dispatch (responders answers) fuel ctx w
    = Some (Normal (mkInvocation first e None
                    :: map (fun f => mkInvocation f e (Some already_responded))
                           rest),
            mkWorld (w_events w ++ [ev]) (w_heap w)
              (w_console w
               ++ map (fun _ => ("Error in fetch handler:", already_responded))
                      rest)
              (first :: rest))
    /\ FetchEvent._responded ev = true
    /\ FetchEvent.reactions ev = [Fulfilled (answers first)]
    /\ FetchEvent.sink_calls ev = []
    /\ FetchEvent._respondCallback ev = ctx_respond ctx.
Proof.
  intros Hh Hfuel e.
  destruct fuel as [|fuel]; [simpl in Hfuel; lia|].
  unfold Server.dispatch, Server.new_event. rewrite fromContext_result.
  cbn [Server.call_handlers _handlers]. rewrite Hh. cbn [lookup list_lookup].
  rewrite call_handler_result.
  unfold responders at 1. unfold on_event. cbn [w_events].
  rewrite lookup_app_r by lia. rewrite Nat.sub_diag. cbn [lookup list_lookup].
  unfold FetchEvent.respondWith.
  cbn [FetchEvent.event FetchEvent._responded FetchEvent.new].
  cbn [FetchEvent.set_event FetchEvent.heap FetchEvent.console w_heap w_console
       _handlers fst snd].
  match goal with
  | |- context [Server.call_handlers _ fuel 1 ?e0 ?w0] =>
      rewrite (call_responders_again answers fuel 1 e0 w0
                 (FetchEvent.event
                    (snd (FetchEvent.respondWith (ArgResponse (answers first))
                            (FetchEvent.mkState
                               (FetchEvent.new
                                  (Request.mk (ctx_method ctx) (ctx_url ctx)
                                     (Headers.new
                                        (Some (Headers.InitArray
                                                 (map ItemPair (ctx_headers ctx)))))
                                     (ctx_body ctx) false)
                                  (ctx_clientAddress ctx) (ctx_respond ctx))
                               (w_heap w) (w_console w))))))
  end.
  - cbn [w_events w_heap w_console _handlers drop].
    rewrite insert_app_r_alt by lia. rewrite Nat.sub_diag. cbn [insert list_insert].
    eexists. split; [reflexivity|]. repeat split; reflexivity.
  - cbn [w_events]. rewrite insert_app_r_alt by lia. rewrite Nat.sub_diag.
    rewrite lookup_app_r by lia. rewrite Nat.sub_diag. reflexivity.
  - reflexivity.
  - cbn [_handlers]. simpl in Hfuel |- *. lia.
Qed.

Lemma first_responder_wins_witness :
  exists ev,
    fst <$> Server.dispatch (responders (fun _ => ex_response)) 3 ex_context
              (register [1; 2] (mkWorld [] [] [] []))
    = Some (Normal [mkInvocation 1 0 None;
                    mkInvocation 2 0 (Some already_responded)])
    /\ FetchEvent.reactions ev = [Fulfilled ex_response].
Proof.
  destruct (first_responder_wins (fun _ => ex_response) 1 [2] ex_context
              (register [1; 2] (mkWorld [] [] [] [])) 3)
    as (ev & E & _ & Hr & _); [reflexivity|simpl; lia|].
  exists ev. rewrite E. split; [reflexivity|exact Hr].
Defined.

(** ** Response.ok *)

(** X21. [ok] of the Responses the class makes. A Response that
  [Response.redirect] returns is never [ok]; [Response.error()] returns a
  Response with status 0, no body and no headers, which is not [ok], and
  allocates nothing; a Response built without a status is [ok], whatever
  its body. *)
Theorem ok_of_made_responses :
  (forall url status h r h',
      Response.redirect url status h = (Normal r, h') ->
      Response.ok r = false)
  /\ (forall h,
        exists r,
          Response.error h = (Normal r, h)
          /\ Response.status r = 0%Z
          /\ Response.ok r = false
          /\ wire r = mkJsResponse 0 [] None)
  /\ (forall body statusText headers h r h',
        Response.new body
          (Some (Response.mkInit None statusText headers)) h = (Normal r, h') ->
        Response.ok r = true)
  /\ (forall body h r h',
        Response.new body None h = (Normal r, h') -> Response.ok r = true).
Proof.
  split; [|split; [|split]].
  - intros url status h r h'. unfold Response.redirect.
    destruct (existsb _ _) eqn:E; simpl; [|discriminate].
    apply redirect_status_decide in E. intros [= <- _]. unfold Response.ok.
    simpl. unfold is_redirect_status in E.
    destruct E as [-> | [-> | [-> | [-> | ->]]]]; reflexivity.
  - intros h. eexists. split; [reflexivity|]. repeat split; reflexivity.
  - intros body statusText headers h r h'.
    destruct body as [[s|b|ab|a]|]; intros [= <- _]; reflexivity.
  - intros body h r h'.
    destruct body as [[s|b|ab|a]|]; intros [= <- _]; reflexivity.
Qed.

Lemma ok_of_made_responses_witness :
  Response.ok (Response.mk 301 "OK"
                 (Headers.new (Some (Headers.InitRecord [("location", "/")])))
                 None false) = false
  /\ Response.ok (Response.mk 200 "OK" (Headers.new None) (Some 0%nat) false)
     = true.
Proof.
  destruct ok_of_made_responses as (Hredirect & _ & _ & Hnew).
  split.
  - apply (Hredirect "/" (Some 301%Z) [] _ []). reflexivity.
  - apply (Hnew (Some (BodyString "hi")) [] _ [String.list_byte_of_string "hi"]).
    reflexivity.
Defined.
